(** * Checkpointed bulk loader of [scripts/load_pwc_data_to_postgres.py]

    A shallow embedding of the resumable loader: the checkpoint store, the
    four per-stream batch loaders and the orchestrator [main], together with
    the destination tables they write to.

    The Python code is effectful: it mutates one checkpoint dict shared by
    the four loaders, rewrites the checkpoint file, talks to the database
    and prints.  All of that is threaded through one [World] value by a
    small state-and-exception monad.

    The database is the outside world.  Its tables are modelled with the
    uniqueness constraints the SQL of the script names in its ON CONFLICT
    clauses, and every round trip to it may go through, raise a database
    error or be interrupted by Ctrl-C, as a list of [fault]s in the world
    prescribes.  A statement that raises has no effect on the tables.  The
    transaction state of the connection is not modelled: that statements
    keep failing after a failed one until the next commit can be written
    in the list of faults, the rollback of such a batch cannot. *)

From Stdlib Require Import List String Arith Bool Lia ZArith.
Import ListNotations.

Set Implicit Arguments.
Set Warnings "-register-all".

(** ** Source data *)

(** The four entity streams, in the order [main] runs them. *)
Inductive stream := Papers | Datasets | Links | Eval.

Record date := mkDate { year : nat; month : nat; day : nat }.

(** A Python float that is not NaN, as mantissa and binary exponent; the
    loader only carries such values around. *)
Definition pyfloat := (Z * Z)%type.

(** What [json.loads] may return. *)
Inductive json :=
| JNull
| JBool (b : bool)
| JNum (x : pyfloat)
| JStr (s : string)
| JArr (l : list json)
| JObj (kv : list (string * json)).

(** Python truthiness of a decoded JSON value ([if authors]). *)
Definition json_truthy (j : json) : bool :=
  match j with
  | JNull => false
  | JBool b => b
  | JNum (m, _) => negb (m =? 0)%Z
  | JStr s => negb (String.eqb s EmptyString)
  | JArr l => match l with [] => false | _ => true end
  | JObj kv => match kv with [] => false | _ => true end
  end.

(** Library functions the loader calls; their code is not part of the
    repository, so they are taken as given.  [None] stands for a raised
    exception. *)
Record PyLib := mkPyLib {
  json_loads : string -> option json;
  json_dumps : json -> string;
  strptime_ymd : string -> option date;      (* datetime.strptime(s, '%Y-%m-%d').date() *)
  split_strip : string -> list string;       (* [m.strip() for m in s.split(',')] *)
  float_of_str : string -> option pyfloat    (* float(s) *)
}.

(** A cell of a string-typed parquet column: [None] is a null of the
    column, which reaches the loader as Python [None]: [pd.isna] holds of
    it and it is false as a condition. *)
Definition cell := option string.

(** The [authors] cell: the shapes the code tells apart. *)
Inductive authors_cell :=
| AuthorsNone
| AuthorsArray (l : list string)     (* numpy array: has [tolist] *)
| AuthorsStr (s : string)
| AuthorsList (l : list string)
| AuthorsOther.

(** The [date] cell. *)
Inductive date_cell :=
| DateMissing                         (* None, NaN or NaT *)
| DateTimestamp (d : date) (ns : nat) (* pd.Timestamp *)
| DateStr (s : string)
| DateObj (d : date).                 (* anything else, passed on unchanged *)

Record PaperRow := mkPaperRow {
  pw_arxiv_id : cell;
  pw_title : cell;
  pw_abstract : cell;
  pw_url_abs : cell;
  pw_url_pdf : cell;
  pw_authors : authors_cell;
  pw_date : date_cell
}.

Inductive modalities_cell :=
| ModNone
| ModArray (l : list string)
| ModStr (s : string)
| ModList (l : list string)
| ModOther.

(** The [paper] cell of a dataset row: a dict with an optional [url] key,
    or something that is not a dict. *)
Inductive paper_cell :=
| PaperDict (url : cell)
| PaperOther.

Record DatasetRow := mkDatasetRow {
  dw_name : cell;
  dw_description : cell;
  dw_modalities : modalities_cell;
  dw_homepage : cell;
  dw_paper : paper_cell
}.

(** The [is_official] cell: the column may be absent from the row. *)
Inductive official_cell :=
| OfficialAbsent
| OfficialNull
| OfficialBool (b : bool).

Record LinkRow := mkLinkRow {
  lw_paper_arxiv_id : cell;
  lw_repo_url : cell;
  lw_framework : cell;
  lw_is_official : official_cell
}.

(** The [value] cell of an evaluation row. *)
Inductive value_cell :=
| ValueMissing
| ValueFloat (x : pyfloat)
| ValueStr (s : string)
| ValueOther.                         (* [float] raises TypeError on it *)

Record EvalRow := mkEvalRow {
  ew_dataset : cell;
  ew_task : cell;
  ew_paper_arxiv_id : cell;
  ew_metric : cell;
  ew_value : value_cell
}.

(** ** Destination tables

    Rows carry the columns the loader writes.  Every column but [id] is
    nullable in the model, so that a null key or a null reference is
    something the loader could store; that it never does is proved, not
    assumed. *)

Record PaperRec := mkPaperRec {
  p_id : nat;
  p_title : option string;
  p_abstract : option string;
  p_arxiv_id : option string;
  p_arxiv_url : option string;
  p_pdf_url : option string;
  p_published_date : option date;
  p_authors : option string
}.

Record DatasetRec := mkDatasetRec {
  d_id : nat;
  d_name : option string;
  d_description : option string;
  d_modalities : option (list string);
  d_homepage_url : option string;
  d_paper_url : option string
}.

Record ImplRec := mkImplRec {
  i_id : nat;
  i_paper_id : option nat;
  i_github_url : option string;
  i_framework : option string;
  i_is_official : option bool
}.

Record BenchRec := mkBenchRec {
  b_id : nat;
  b_name : option string;
  b_dataset_id : option nat;
  b_task : option string
}.

Record ResultRec := mkResultRec {
  r_id : nat;
  r_paper_id : option nat;
  r_benchmark_id : option nat;
  r_metric_name : option string;
  r_metric_value : option pyfloat
}.

Record Store := mkStore {
  papers : list PaperRec;
  datasets : list DatasetRec;
  implementations : list ImplRec;
  benchmarks : list BenchRec;
  benchmark_results : list ResultRec
}.

Definition empty_store : Store := mkStore [] [] [] [] [].

(** SQL equality of two nullable values: never true when one side is null.
    This is also how a UNIQUE constraint compares keys, so two rows with a
    null key never conflict. *)
Definition sql_eq {A} (eqb : A -> A -> bool) (a b : option A) : bool :=
  match a, b with
  | Some x, Some y => eqb x y
  | _, _ => false
  end.

(** A fresh identifier for a table whose rows have the given ids. *)
Definition fresh_id (ids : list nat) : nat := S (list_max ids).

(** [SELECT id FROM papers WHERE arxiv_id = %s LIMIT 1] *)
Definition select_paper_id (arxiv_id : option string) (s : Store) : option nat :=
  option_map p_id
    (find (fun p => sql_eq String.eqb (p_arxiv_id p) arxiv_id) (papers s)).

(** [SELECT id FROM datasets WHERE name = %s LIMIT 1] *)
Definition select_dataset_id (name : option string) (s : Store) : option nat :=
  option_map d_id
    (find (fun d => sql_eq String.eqb (d_name d) name) (datasets s)).

(** [INSERT INTO papers ... ON CONFLICT (arxiv_id) DO NOTHING RETURNING id],
    followed by [fetchone]: the new id, or [None] on a conflict. *)
Definition insert_paper (title abstract arxiv_id arxiv_url pdf_url : option string)
    (published_date : option date) (authors : option string) (s : Store)
    : option nat * Store :=
  if existsb (fun p => sql_eq String.eqb (p_arxiv_id p) arxiv_id) (papers s)
  then (None, s)
  else
    let id := fresh_id (map p_id (papers s)) in
    (Some id,
     mkStore
       (papers s ++ [mkPaperRec id title abstract arxiv_id arxiv_url pdf_url
                       published_date authors])
       (datasets s) (implementations s) (benchmarks s) (benchmark_results s)).

(** [INSERT INTO datasets ... ON CONFLICT (name) DO NOTHING RETURNING id] *)
Definition insert_dataset (name description : option string)
    (modalities : option (list string)) (homepage paper_url : option string)
    (s : Store) : option nat * Store :=
  if existsb (fun d => sql_eq String.eqb (d_name d) name) (datasets s)
  then (None, s)
  else
    let id := fresh_id (map d_id (datasets s)) in
    (Some id,
     mkStore (papers s)
       (datasets s ++ [mkDatasetRec id name description modalities homepage paper_url])
       (implementations s) (benchmarks s) (benchmark_results s)).

(** [INSERT INTO implementations ... ON CONFLICT DO NOTHING RETURNING id].
    The statement names no conflict target, so any uniqueness constraint of
    the table applies; the schema is not part of the sources, and the
    constraint is the parameter [impl_conflict]. *)
Definition insert_implementation (impl_conflict : ImplRec -> ImplRec -> bool)
    (paper_id : option nat) (github_url framework : option string)
    (is_official : option bool) (s : Store) : option nat * Store :=
  let id := fresh_id (map i_id (implementations s)) in
  let r := mkImplRec id paper_id github_url framework is_official in
  if existsb (fun old => impl_conflict old r) (implementations s)
  then (None, s)
  else
    (Some id,
     mkStore (papers s) (datasets s) (implementations s ++ [r])
       (benchmarks s) (benchmark_results s)).

Definition bench_key_eq (name : option string) (dataset_id : option nat)
    (b : BenchRec) : bool :=
  sql_eq String.eqb (b_name b) name && sql_eq Nat.eqb (b_dataset_id b) dataset_id.

(** [DO UPDATE SET task = EXCLUDED.task] on the rows with the given key. *)
Definition update_task (name : option string) (dataset_id : option nat)
    (task : option string) (l : list BenchRec) : list BenchRec :=
  map (fun b =>
         if bench_key_eq name dataset_id b
         then mkBenchRec (b_id b) (b_name b) (b_dataset_id b) task
         else b) l.

(** [INSERT INTO benchmarks ... ON CONFLICT (name, dataset_id)
    DO UPDATE SET task = EXCLUDED.task RETURNING id]: always returns an id,
    the one of the conflicting row or of the new row. *)
Definition upsert_benchmark (name : option string) (dataset_id : option nat)
    (task : option string) (s : Store) : nat * Store :=
  match find (bench_key_eq name dataset_id) (benchmarks s) with
  | Some b =>
      (b_id b,
       mkStore (papers s) (datasets s) (implementations s)
         (update_task name dataset_id task (benchmarks s)) (benchmark_results s))
  | None =>
      let id := fresh_id (map b_id (benchmarks s)) in
      (id,
       mkStore (papers s) (datasets s) (implementations s)
         (benchmarks s ++ [mkBenchRec id name dataset_id task])
         (benchmark_results s))
  end.

Definition result_key_eq (paper_id benchmark_id : option nat)
    (metric_name : option string) (r : ResultRec) : bool :=
  sql_eq Nat.eqb (r_paper_id r) paper_id
  && sql_eq Nat.eqb (r_benchmark_id r) benchmark_id
  && sql_eq String.eqb (r_metric_name r) metric_name.

(** [INSERT INTO benchmark_results ... ON CONFLICT (paper_id, benchmark_id,
    metric_name) DO NOTHING RETURNING id] *)
Definition insert_result (paper_id benchmark_id : option nat)
    (metric_name : option string) (metric_value : option pyfloat) (s : Store)
    : option nat * Store :=
  if existsb (result_key_eq paper_id benchmark_id metric_name) (benchmark_results s)
  then (None, s)
  else
    let id := fresh_id (map r_id (benchmark_results s)) in
    (Some id,
     mkStore (papers s) (datasets s) (implementations s) (benchmarks s)
       (benchmark_results s
          ++ [mkResultRec id paper_id benchmark_id metric_name metric_value])).

(** ** Checkpoint *)

(** The checkpoint dict: one offset and one completion flag per stream. *)
Record Checkpoint := mkCheckpoint {
  papers_offset : nat;
  datasets_offset : nat;
  links_offset : nat;
  eval_offset : nat;
  papers_complete : bool;
  datasets_complete : bool;
  links_complete : bool;
  eval_complete : bool
}.

(** The dict [load_checkpoint] returns when there is no file. *)
Definition fresh_checkpoint : Checkpoint :=
  mkCheckpoint 0 0 0 0 false false false false.

Definition get_offset (st : stream) (c : Checkpoint) : nat :=
  match st with
  | Papers => papers_offset c
  | Datasets => datasets_offset c
  | Links => links_offset c
  | Eval => eval_offset c
  end.

Definition get_complete (st : stream) (c : Checkpoint) : bool :=
  match st with
  | Papers => papers_complete c
  | Datasets => datasets_complete c
  | Links => links_complete c
  | Eval => eval_complete c
  end.

(** [checkpoint['<stream>_offset'] = n] *)
Definition set_offset (st : stream) (n : nat) (c : Checkpoint) : Checkpoint :=
  match st with
  | Papers =>
      mkCheckpoint n (datasets_offset c) (links_offset c) (eval_offset c)
        (papers_complete c) (datasets_complete c) (links_complete c) (eval_complete c)
  | Datasets =>
      mkCheckpoint (papers_offset c) n (links_offset c) (eval_offset c)
        (papers_complete c) (datasets_complete c) (links_complete c) (eval_complete c)
  | Links =>
      mkCheckpoint (papers_offset c) (datasets_offset c) n (eval_offset c)
        (papers_complete c) (datasets_complete c) (links_complete c) (eval_complete c)
  | Eval =>
      mkCheckpoint (papers_offset c) (datasets_offset c) (links_offset c) n
        (papers_complete c) (datasets_complete c) (links_complete c) (eval_complete c)
  end.

(** [checkpoint['<stream>_complete'] = True] *)
Definition set_complete (st : stream) (c : Checkpoint) : Checkpoint :=
  match st with
  | Papers =>
      mkCheckpoint (papers_offset c) (datasets_offset c) (links_offset c) (eval_offset c)
        true (datasets_complete c) (links_complete c) (eval_complete c)
  | Datasets =>
      mkCheckpoint (papers_offset c) (datasets_offset c) (links_offset c) (eval_offset c)
        (papers_complete c) true (links_complete c) (eval_complete c)
  | Links =>
      mkCheckpoint (papers_offset c) (datasets_offset c) (links_offset c) (eval_offset c)
        (papers_complete c) (datasets_complete c) true (eval_complete c)
  | Eval =>
      mkCheckpoint (papers_offset c) (datasets_offset c) (links_offset c) (eval_offset c)
        (papers_complete c) (datasets_complete c) (links_complete c) true
  end.

(** ** The world the script runs in *)

(** The local counters of a loader ([inserted], [skipped], and for the
    evaluation loader [inserted_benchmarks], [inserted_results]).  They are
    part of the state because a row that raises keeps the increments made
    before the exception. *)
Record Counters := mkCounters {
  inserted : nat;
  skipped : nat;
  inserted_benchmarks : nat;
  inserted_results : nat
}.

Definition zero_counters : Counters := mkCounters 0 0 0 0.

(** What the script prints, one constructor per [print] call. *)
Inductive Msg :=
| MsgBanner
| MsgFileNotFound (st : stream)
| MsgRunDownload (st : stream)
| MsgAlreadyLoaded (st : stream)
| MsgLoading (st : stream)
| MsgTotal (st : stream) (total start_offset : nat)
| MsgRowError (st : stream)
| MsgProcessed (st : stream) (done total inserted skipped : nat)
| MsgProcessedRecords (done total : nat)
| MsgLoaded (st : stream) (inserted skipped : nat)
| MsgEvalLoaded (benchmarks results : nat)
| MsgCheckpointCleared
| MsgNoCheckpoint
| MsgDataDirNotFound
| MsgStartingFresh
| MsgFoundCheckpoint
| MsgStatus (st : stream) (resume_at : option nat)
| MsgStartingFreshLoad
| MsgConnected
| MsgSummary (papers_count datasets_count links_count eval_count : nat)
| MsgAllLoaded
| MsgClearing
| MsgInterrupted
| MsgError
| MsgProgressSaved                    (* "Progress has been saved. Run the script again to resume." *)
| MsgTraceback.

(** The observable history of a run: what was printed, and, for the proofs,
    which source row was taken up, which batch was committed and what
    happened to the checkpoint file. *)
Inductive Event :=
| EvPrint (m : Msg)
| EvAttempt (st : stream) (index : nat)
| EvCommit
| EvSave (c : Checkpoint)
| EvClear.

(** What the outside does to one database round trip. *)
Inductive fault :=
| NoFault
| DbError        (* the call raises a psycopg2 error, an [Exception] *)
| Interrupt.     (* Ctrl-C arrives: [KeyboardInterrupt] *)

Record World := mkWorld {
  data_dir_exists : bool;
  ckpt_file : option Checkpoint;             (* CHECKPOINT_FILE *)
  src_papers : option (list PaperRow);       (* the four parquet files *)
  src_datasets : option (list DatasetRow);
  src_links : option (list LinkRow);
  src_eval : option (list EvalRow);
  db : Store;
  faults : list fault;                       (* fate of the coming round trips *)
  ckpt_mem : option Checkpoint;              (* the [checkpoint] argument; [None] is Python's None *)
  counters : Counters;
  log : list Event
}.

Definition set_ckpt_file (f : option Checkpoint) (w : World) : World :=
  mkWorld (data_dir_exists w) f (src_papers w) (src_datasets w) (src_links w)
    (src_eval w) (db w) (faults w) (ckpt_mem w) (counters w) (log w).

Definition set_db (s : Store) (w : World) : World :=
  mkWorld (data_dir_exists w) (ckpt_file w) (src_papers w) (src_datasets w)
    (src_links w) (src_eval w) s (faults w) (ckpt_mem w) (counters w) (log w).

Definition set_faults (fs : list fault) (w : World) : World :=
  mkWorld (data_dir_exists w) (ckpt_file w) (src_papers w) (src_datasets w)
    (src_links w) (src_eval w) (db w) fs (ckpt_mem w) (counters w) (log w).

Definition set_ckpt_mem (c : option Checkpoint) (w : World) : World :=
  mkWorld (data_dir_exists w) (ckpt_file w) (src_papers w) (src_datasets w)
    (src_links w) (src_eval w) (db w) (faults w) c (counters w) (log w).

Definition set_counters (c : Counters) (w : World) : World :=
  mkWorld (data_dir_exists w) (ckpt_file w) (src_papers w) (src_datasets w)
    (src_links w) (src_eval w) (db w) (faults w) (ckpt_mem w) c (log w).

Definition add_event (e : Event) (w : World) : World :=
  mkWorld (data_dir_exists w) (ckpt_file w) (src_papers w) (src_datasets w)
    (src_links w) (src_eval w) (db w) (faults w) (ckpt_mem w) (counters w)
    (log w ++ [e]).

(** ** State and exception monad *)

Inductive exn :=
| KeyboardInterrupt
| DatabaseError
| ValueError.

(** [except Exception] catches everything but [KeyboardInterrupt]. *)
Definition is_Exception (e : exn) : bool :=
  match e with
  | KeyboardInterrupt => false
  | _ => true
  end.

Inductive result (A : Type) :=
| Ret (a : A)
| Raise (e : exn).
Arguments Ret {A} a.
Arguments Raise {A} e.

Definition M (A : Type) := World -> result A * World.

Definition ret {A} (a : A) : M A := fun w => (Ret a, w).

Definition raise {A} (e : exn) : M A := fun w => (Raise e, w).

Definition bind {A B} (m : M A) (k : A -> M B) : M B :=
  fun w =>
    match m w with
    | (Ret a, w') => k a w'
    | (Raise e, w') => (Raise e, w')
    end.

Declare Scope loader_scope.
Delimit Scope loader_scope with loader.
Notation "x <- m ;; k" := (bind m (fun x => k))
  (at level 61, m at next level, right associativity) : loader_scope.
Notation "m ;; k" := (bind m (fun _ => k))
  (at level 61, right associativity) : loader_scope.
Open Scope loader_scope.

(** [try: m  except ...: h], for the exceptions that [catches] selects. *)
Definition try_except {A} (m : M A) (catches : exn -> bool) (h : exn -> M A) : M A :=
  fun w =>
    match m w with
    | (Ret a, w') => (Ret a, w')
    | (Raise e, w') => if catches e then h e w' else (Raise e, w')
    end.

(** [try: m  except Exception: h] *)
Definition try_except_Exception {A} (m : M A) (h : exn -> M A) : M A :=
  try_except m is_Exception h.

Definition get {A} (f : World -> A) : M A := fun w => (Ret (f w), w).

Definition modify (f : World -> World) : M unit := fun w => (Ret tt, f w).

Definition print (m : Msg) : M unit := modify (add_event (EvPrint m)).

Definition emit (e : Event) : M unit := modify (add_event e).

Definition update_counters (f : Counters -> Counters) : M unit :=
  modify (fun w => set_counters (f (counters w)) w).

(** One round trip to the database: the next fault decides whether the
    call goes through. *)
Definition round_trip : M unit :=
  fun w =>
    match faults w with
    | [] => (Ret tt, w)
    | NoFault :: fs => (Ret tt, set_faults fs w)
    | DbError :: fs => (Raise DatabaseError, set_faults fs w)
    | Interrupt :: fs => (Raise KeyboardInterrupt, set_faults fs w)
    end.

(** [cur.execute(...)] followed by [cur.fetchone()]. *)
Definition execute {A} (stmt : Store -> A * Store) : M A :=
  round_trip ;;
  fun w => let (a, s) := stmt (db w) in (Ret a, set_db s w).

(** A read-only statement. *)
Definition query {A} (q : Store -> A) : M A :=
  execute (fun s => (q s, s)).

(** [conn.commit()] *)
Definition commit : M unit := round_trip ;; emit EvCommit.

Fixpoint for_each {A} (body : A -> M unit) (l : list A) : M unit :=
  match l with
  | [] => ret tt
  | a :: t => body a ;; for_each body t
  end.

(** ** Checkpoint store *)

Definition load_checkpoint : M Checkpoint :=
  f <- get ckpt_file ;;
  match f with
  | Some c => ret c
  | None => ret fresh_checkpoint
  end.

Definition save_checkpoint (c : Checkpoint) : M unit :=
  modify (set_ckpt_file (Some c)) ;; emit (EvSave c).

Definition clear_checkpoint : M unit :=
  f <- get ckpt_file ;;
  match f with
  | Some _ => modify (set_ckpt_file None) ;; emit EvClear
  | None => ret tt
  end.

Definition connect_db : M unit := round_trip.

(** ** Batch loaders *)

(** [range(start, stop, step)] for a positive step; [stop] iterations are
    enough. *)
Fixpoint range_from (fuel start stop step : nat) : list nat :=
  match fuel with
  | 0 => []
  | S f =>
      if start <? stop then start :: range_from f (start + step) stop step else []
  end.

Definition py_range (start stop step : nat) : list nat :=
  range_from stop start stop step.

(** [df.iloc[i:j]], each row with its position in the source. *)
Definition iloc {A} (i j : nat) (rows : list A) : list (nat * A) :=
  combine (seq i (j - i)) (firstn (j - i) (skipn i rows)).

Definition incr_inserted (c : Counters) : Counters :=
  mkCounters (S (inserted c)) (skipped c) (inserted_benchmarks c) (inserted_results c).

Definition incr_skipped (c : Counters) : Counters :=
  mkCounters (inserted c) (S (skipped c)) (inserted_benchmarks c) (inserted_results c).

Definition incr_inserted_benchmarks (c : Counters) : Counters :=
  mkCounters (inserted c) (skipped c) (S (inserted_benchmarks c)) (inserted_results c).

Definition incr_inserted_results (c : Counters) : Counters :=
  mkCounters (inserted c) (skipped c) (inserted_benchmarks c) (S (inserted_results c)).

(** The four loaders of the script are the same function text with another
    file, another row body and other messages; [batch_loader] is that
    text, and the section variables are what differs. *)
Section BatchLoader.

Variable st : stream.
Variable Row : Type.
Variable source : World -> option (list Row).
Variable body : Row -> M unit.                 (* the [try ... except] of one row *)
Variable progress : nat -> nat -> Counters -> Msg.
Variable summary : Counters -> Msg.
Variable tally : Counters -> nat.              (* the returned count *)

(** [for _, row in batch.iterrows()] over [batch = df.iloc[i:i+batch_size]] *)
Definition batch_rows (rows : list Row) (batch_size i : nat) : M unit :=
  for_each (fun ir => emit (EvAttempt st (fst ir)) ;; body (snd ir))
    (iloc i (i + batch_size) rows).

(** The end of a batch: commit, save the checkpoint, report. *)
Definition batch_commit (rows : list Row) (batch_size i : nat) : M unit :=
  commit ;;
  cp <- get ckpt_mem ;;
  match cp with
  | Some c =>
      let c' := set_offset st (i + batch_size) c in
      modify (set_ckpt_mem (Some c')) ;;
      save_checkpoint c'
  | None => ret tt
  end ;;
  c <- get counters ;;
  print (progress (Nat.min (i + batch_size) (List.length rows)) (List.length rows) c).

(** One turn of [for i in range(start_offset, len(df), batch_size)]. *)
Definition batch_step (rows : list Row) (batch_size i : nat) : M unit :=
  batch_rows rows batch_size i ;;
  batch_commit rows batch_size i.

(** After the loop: mark the stream complete, report, return the count. *)
Definition finish_stream : M nat :=
  cp <- get ckpt_mem ;;
  match cp with
  | Some c =>
      let c' := set_complete st c in
      modify (set_ckpt_mem (Some c')) ;;
      save_checkpoint c'
  | None => ret tt
  end ;;
  c <- get counters ;;
  print (summary c) ;;
  ret (tally c).

Definition batch_loader (batch_size : nat) : M nat :=
  src <- get source ;;
  match src with
  | None =>
      print (MsgFileNotFound st) ;;
      print (MsgRunDownload st) ;;
      ret 0
  | Some rows =>
      cp <- get ckpt_mem ;;
      if match cp with Some c => get_complete st c | None => false end
      then print (MsgAlreadyLoaded st) ;; ret 0
      else
        print (MsgLoading st) ;;
        let start_offset :=
          match cp with Some c => get_offset st c | None => 0 end in
        print (MsgTotal st (List.length rows) start_offset) ;;
        modify (set_counters zero_counters) ;;
        (if batch_size =? 0
         then raise ValueError                 (* range() arg 3 must not be zero *)
         else for_each (batch_step rows batch_size)
                (py_range start_offset (List.length rows) batch_size)) ;;
        finish_stream
  end.

End BatchLoader.

(** *** Papers *)

Definition parse_authors (lib : PyLib) (a : authors_cell) : option json :=
  match a with
  | AuthorsArray l => Some (JArr (map JStr l))   (* authors.tolist() *)
  | AuthorsStr s => json_loads lib s             (* None when json.loads raises *)
  | AuthorsList l => Some (JArr (map JStr l))
  | AuthorsNone | AuthorsOther => None
  end.

(** [json.dumps(authors) if authors else None] *)
Definition dump_authors (lib : PyLib) (a : option json) : option string :=
  match a with
  | Some j => if json_truthy j then Some (json_dumps lib j) else None
  | None => None
  end.

Definition parse_date (lib : PyLib) (d : date_cell) : option date :=
  match d with
  | DateMissing => None
  | DateTimestamp d _ => Some d                  (* published_date.date() *)
  | DateStr s => strptime_ymd lib s              (* None when strptime raises *)
  | DateObj d => Some d
  end.

Definition paper_row (lib : PyLib) (row : PaperRow) : M unit :=
  try_except_Exception
    (match pw_arxiv_id row with
     | None => update_counters incr_skipped      (* pd.isna(arxiv_id): continue *)
     | Some arxiv_id =>
         let authors := parse_authors lib (pw_authors row) in
         let published_date := parse_date lib (pw_date row) in
         r <- execute
                (insert_paper (pw_title row) (pw_abstract row) (Some arxiv_id)
                   (pw_url_abs row) (pw_url_pdf row) published_date
                   (dump_authors lib authors)) ;;
         match r with
         | Some _ => update_counters incr_inserted
         | None => update_counters incr_skipped
         end
     end)
    (fun _ => print (MsgRowError Papers)).

(** The progress line and the closing line of the first three loaders. *)
Definition progress_line (st : stream) (done total : nat) (c : Counters) : Msg :=
  MsgProcessed st done total (inserted c) (skipped c).

Definition closing_line (st : stream) (c : Counters) : Msg :=
  MsgLoaded st (inserted c) (skipped c).

Definition load_papers (lib : PyLib) (batch_size : nat) : M nat :=
  batch_loader Papers src_papers (paper_row lib)
    (progress_line Papers) (closing_line Papers) inserted batch_size.

(** *** Datasets *)

Definition parse_modalities (lib : PyLib) (m : modalities_cell) : option (list string) :=
  match m with
  | ModArray l => Some l
  | ModStr s => Some (split_strip lib s)
  | ModList l => Some l
  | ModNone | ModOther => None
  end.

Definition dataset_row (lib : PyLib) (row : DatasetRow) : M unit :=
  try_except_Exception
    (let modalities := parse_modalities lib (dw_modalities row) in
     let paper_url :=
       match dw_paper row with PaperDict url => url | PaperOther => None end in
     r <- execute
            (insert_dataset (dw_name row) (dw_description row) modalities
               (dw_homepage row) paper_url) ;;
     match r with
     | Some _ => update_counters incr_inserted
     | None => update_counters incr_skipped
     end)
    (fun _ => print (MsgRowError Datasets)).

Definition load_datasets (lib : PyLib) (batch_size : nat) : M nat :=
  batch_loader Datasets src_datasets (dataset_row lib)
    (progress_line Datasets) (closing_line Datasets) inserted batch_size.

(** *** Code links *)

(** Truthiness of a string cell: [None] and the empty string are false. *)
Definition cell_truthy (c : cell) : bool :=
  match c with
  | Some s => negb (String.eqb s EmptyString)
  | None => false
  end.

Definition link_row (impl_conflict : ImplRec -> ImplRec -> bool) (row : LinkRow)
    : M unit :=
  try_except_Exception
    (let arxiv_id := lw_paper_arxiv_id row in
     let github_url := lw_repo_url row in
     match negb (cell_truthy github_url), arxiv_id with
     | false, Some _ =>
         result <- query (select_paper_id arxiv_id) ;;
         match result with
         | None => update_counters incr_skipped
         | Some paper_id =>
             let framework := lw_framework row in
             let is_official :=
               match lw_is_official row with
               | OfficialAbsent => Some false    (* row.get('is_official', False) *)
               | OfficialNull => None
               | OfficialBool b => Some b
               end in
             r <- execute
                    (insert_implementation impl_conflict (Some paper_id) github_url
                       framework is_official) ;;
             match r with
             | Some _ => update_counters incr_inserted
             | None => update_counters incr_skipped
             end
         end
     | _, _ => update_counters incr_skipped
     end)
    (fun _ => print (MsgRowError Links)).

Definition load_code_links (impl_conflict : ImplRec -> ImplRec -> bool)
    (batch_size : nat) : M nat :=
  batch_loader Links src_links (link_row impl_conflict)
    (progress_line Links) (closing_line Links) inserted batch_size.

(** *** Evaluation tables *)

(** [float(metric_value)]; [None] when it raises ValueError or TypeError. *)
Definition to_float (lib : PyLib) (v : value_cell) : option pyfloat :=
  match v with
  | ValueFloat x => Some x
  | ValueStr s => float_of_str lib s
  | ValueMissing | ValueOther => None
  end.

Definition value_notna (v : value_cell) : bool :=
  match v with ValueMissing => false | _ => true end.

(** Truthiness of [paper_id]: not None and not zero. *)
Definition id_truthy (i : option nat) : bool :=
  match i with Some n => negb (n =? 0) | None => false end.

(** [f"{dataset_name} - {task}"] *)
Definition benchmark_name (dataset_name task : string) : string :=
  (dataset_name ++ " - " ++ task)%string.

(** "Get paper if available" and "Insert result if we have paper and
    metric": the second half of an evaluation row. *)
Definition record_result (lib : PyLib) (row : EvalRow) (benchmark_id : nat) : M unit :=
  paper_id <- match ew_paper_arxiv_id row with
              | Some a => query (select_paper_id (Some a))
              | None => ret None
              end ;;
  let metric_name := ew_metric row in
  let metric_value := ew_value row in
  if id_truthy paper_id && cell_truthy metric_name && value_notna metric_value
  then
    match to_float lib metric_value with
    | Some x =>
        r <- execute
               (insert_result paper_id (Some benchmark_id) metric_name (Some x)) ;;
        match r with
        | Some _ => update_counters incr_inserted_results
        | None => ret tt
        end
    | None => ret tt                             (* except (ValueError, TypeError): pass *)
    end
  else ret tt.

Definition eval_row (lib : PyLib) (row : EvalRow) : M unit :=
  try_except_Exception
    (match ew_dataset row, ew_task row with
     | Some dataset_name, Some task =>
         dataset_id <- query (select_dataset_id (Some dataset_name)) ;;
         benchmark_id <- execute
                           (upsert_benchmark (Some (benchmark_name dataset_name task))
                              dataset_id (Some task)) ;;
         update_counters incr_inserted_benchmarks ;;
         record_result lib row benchmark_id
     | _, _ => update_counters incr_skipped      (* continue *)
     end)
    (fun _ => print (MsgRowError Eval)).

Definition eval_progress_line (done total : nat) (c : Counters) : Msg :=
  MsgProcessedRecords done total.

Definition eval_closing_line (c : Counters) : Msg :=
  MsgEvalLoaded (inserted_benchmarks c) (inserted_results c).

Definition load_evaluation_tables (lib : PyLib) (batch_size : nat) : M nat :=
  batch_loader Eval src_eval (eval_row lib)
    eval_progress_line eval_closing_line inserted_results batch_size.

(** ** Orchestrator *)

Record Args := mkArgs {
  fresh : bool;                 (* --fresh *)
  continue_load : bool;         (* --continue *)
  clear_checkpoint_flag : bool  (* --clear-checkpoint *)
}.

(** The default of the [batch_size] parameter; [main] never passes another. *)
Definition default_batch_size : nat := 1000.

Definition status_of (st : stream) (c : Checkpoint) : Msg :=
  MsgStatus st (if get_complete st c then None else Some (get_offset st c)).

(** The [try] block of [main], first half: connect and run the four
    loaders in dependency order. *)
Definition main_loads (lib : PyLib) (impl_conflict : ImplRec -> ImplRec -> bool)
    : M (nat * nat * nat * nat) :=
  connect_db ;;
  print MsgConnected ;;
  papers_count <- load_papers lib default_batch_size ;;
  datasets_count <- load_datasets lib default_batch_size ;;
  links_count <- load_code_links impl_conflict default_batch_size ;;
  eval_count <- load_evaluation_tables lib default_batch_size ;;
  ret (papers_count, datasets_count, links_count, eval_count).

(** Second half: the summary, and "Clear checkpoint on successful
    completion". *)
Definition main_finish (counts : nat * nat * nat * nat) : M unit :=
  let '(papers_count, datasets_count, links_count, eval_count) := counts in
  print (MsgSummary papers_count datasets_count links_count eval_count) ;;
  print MsgAllLoaded ;;
  print MsgClearing ;;
  clear_checkpoint.

Definition main_try (lib : PyLib) (impl_conflict : ImplRec -> ImplRec -> bool)
    : M unit :=
  counts <- main_loads lib impl_conflict ;;
  main_finish counts.

(** The two [except] clauses of [main]. *)
Definition main_except (e : exn) : M unit :=
  match e with
  | KeyboardInterrupt =>
      print MsgInterrupted ;;
      print MsgProgressSaved
  | _ =>
      print MsgError ;;
      print MsgProgressSaved ;;
      print MsgTraceback
  end.

(** The "Load checkpoint" part of [main]: the dict the loaders share. *)
Definition main_checkpoint (args : Args) : M unit :=
  if fresh args then
    print MsgStartingFresh ;;
    clear_checkpoint ;;
    checkpoint <- load_checkpoint ;;
    modify (set_ckpt_mem (Some checkpoint))
  else
    checkpoint <- load_checkpoint ;;
    modify (set_ckpt_mem (Some checkpoint)) ;;
    if papers_complete checkpoint || datasets_complete checkpoint
       || links_complete checkpoint || eval_complete checkpoint
    then
      print MsgFoundCheckpoint ;;
      print (status_of Papers checkpoint) ;;
      print (status_of Datasets checkpoint) ;;
      print (status_of Links checkpoint) ;;
      print (status_of Eval checkpoint)
    else print MsgStartingFreshLoad.

Definition main (lib : PyLib) (impl_conflict : ImplRec -> ImplRec -> bool)
    (args : Args) : M unit :=
  print MsgBanner ;;
  if clear_checkpoint_flag args then
    f <- get ckpt_file ;;
    match f with
    | Some _ => clear_checkpoint ;; print MsgCheckpointCleared
    | None => print MsgNoCheckpoint
    end
  else
    dir <- get data_dir_exists ;;
    if negb dir then print MsgDataDirNotFound
    else
      main_checkpoint args ;;
      try_except (main_try lib impl_conflict) (fun _ => true) main_except.

(** The exit status of [python load_pwc_data_to_postgres.py]: the module
    raises at import time when DATABASE_URL is unset or empty; otherwise the
    status is 0 when [main] returns and 1 when an exception leaves it. *)
Definition script (database_url : option string) (lib : PyLib)
    (impl_conflict : ImplRec -> ImplRec -> bool) (args : Args) (w : World)
    : nat * World :=
  if cell_truthy database_url then
    match main lib impl_conflict args w with
    | (Ret _, w') => (0, w')
    | (Raise _, w') => (1, w')
    end
  else (1, w).


(** * Vocabulary of the properties *)

Definition run {A} (m : M A) (w : World) : World := snd (m w).

Definition outcome {A} (m : M A) (w : World) : result A := fst (m w).

Definition stream_eqb (a b : stream) : bool :=
  match a, b with
  | Papers, Papers | Datasets, Datasets | Links, Links | Eval, Eval => true
  | _, _ => false
  end.

(** The source rows of a stream that a history took up, in order. *)
Fixpoint attempted (st : stream) (l : list Event) : list nat :=
  match l with
  | [] => []
  | EvAttempt st' i :: t =>
      if stream_eqb st' st then i :: attempted st t else attempted st t
  | _ :: t => attempted st t
  end.

(** How many rows of a stream ended in the [except Exception] branch. *)
Fixpoint row_errors (st : stream) (l : list Event) : nat :=
  match l with
  | [] => 0
  | EvPrint (MsgRowError st') :: t =>
      if stream_eqb st' st then S (row_errors st t) else row_errors st t
  | _ :: t => row_errors st t
  end.

(** The checkpoint file after a history, from what it was before. *)
Fixpoint file_after (f : option Checkpoint) (l : list Event) : option Checkpoint :=
  match l with
  | [] => f
  | EvSave c :: t => file_after (Some c) t
  | EvClear :: t => file_after None t
  | _ :: t => file_after f t
  end.

Definition is_clear (e : Event) : bool :=
  match e with EvClear => true | _ => false end.

(** The first [n] round trips to come go through. *)
Fixpoint calm (n : nat) (fs : list fault) : bool :=
  match n, fs with
  | 0, _ => true
  | S _, [] => true
  | S n', NoFault :: t => calm n' t
  | S _, _ :: _ => false
  end.

(** No papers row has a null natural key. *)
Definition papers_keyed (s : Store) : Prop :=
  forall p, In p (papers s) -> p_arxiv_id p <> None.

(** Every implementations row references a row of the papers table. *)
Definition impl_refs_valid (s : Store) : Prop :=
  forall r, In r (implementations s) ->
    exists pid, i_paper_id r = Some pid /\ In pid (map p_id (papers s)).

(** ** Primitive steps

    Every change a run makes to the world is one of the steps below.  The
    label says which kind; the statement steps carry what the code
    guarantees about their arguments. *)

Inductive label :=
| LCounters (f : Counters -> Counters)
| LFaults
| LMem
| LPrint (m : Msg)
| LAttempt (st : stream) (index : nat)
| LCommit
| LSave (c : Checkpoint)
| LClear
| LPaper
| LDataset
| LImpl
| LBench
| LResult.

Inductive prim : label -> World -> World -> Prop :=
| prim_counters w f : prim (LCounters f) w (set_counters (f (counters w)) w)
| prim_faults w fs : prim LFaults w (set_faults fs w)
| prim_mem w c : prim LMem w (set_ckpt_mem (Some c) w)
| prim_print w m : prim (LPrint m) w (add_event (EvPrint m) w)
| prim_attempt w st i : prim (LAttempt st i) w (add_event (EvAttempt st i) w)
| prim_commit w : prim LCommit w (add_event EvCommit w)
| prim_save w c :
    prim (LSave c) w (add_event (EvSave c) (set_ckpt_file (Some c) w))
| prim_clear w :
    prim LClear w (add_event EvClear (set_ckpt_file None w))
| prim_paper w title abstract key url pdf published authors :
    prim LPaper w
      (set_db (snd (insert_paper title abstract (Some key) url pdf published
                      authors (db w))) w)
| prim_dataset w name description modalities homepage paper_url :
    prim LDataset w
      (set_db (snd (insert_dataset name description modalities homepage
                      paper_url (db w))) w)
| prim_impl w impl_conflict arxiv_id paper_id github_url framework official :
    select_paper_id arxiv_id (db w) = Some paper_id ->
    prim LImpl w
      (set_db (snd (insert_implementation impl_conflict (Some paper_id)
                      github_url framework official (db w))) w)
| prim_bench w name dataset_id task :
    prim LBench w
      (set_db (snd (upsert_benchmark (Some name) dataset_id (Some task) (db w))) w)
| prim_result w paper_id benchmark_id metric_name x :
    prim LResult w
      (set_db (snd (insert_result paper_id (Some benchmark_id) metric_name
                      (Some x) (db w))) w).

(** The steps of the second half of an evaluation row. *)
Definition result_label (l : label) : Prop :=
  match l with
  | LCounters f => f = incr_inserted_results
  | LFaults | LResult => True
  | _ => False
  end.

(** The counters a row of a stream bumps. *)
Definition row_counter (st : stream) (f : Counters -> Counters) : Prop :=
  f = incr_skipped
  \/ match st with
     | Eval => f = incr_inserted_benchmarks \/ f = incr_inserted_results
     | _ => f = incr_inserted
     end.

(** The steps of one row of a stream, of a whole loader, and of [main]. *)
Definition row_label (st : stream) (l : label) : Prop :=
  match l with
  | LCounters f => row_counter st f
  | LFaults => True
  | LPrint m => m = MsgRowError st
  | LPaper => st = Papers
  | LDataset => st = Datasets
  | LImpl => st = Links
  | LBench | LResult => st = Eval
  | _ => False
  end.

(** The steps at the end of a batch and at the end of a stream: no row is
    taken up, no counter moves, and what is printed is not a row error. *)
Definition commit_label (st : stream) (l : label) : Prop :=
  match l with
  | LFaults | LCommit | LMem | LSave _ => True
  | LPrint m => m <> MsgRowError st
  | _ => False
  end.

Definition loader_label (st : stream) (l : label) : Prop :=
  match l with
  | LCounters f => f = (fun _ => zero_counters) \/ row_counter st f
  | LPrint _ | LCommit | LMem | LSave _ => True
  | LAttempt st' _ => st' = st
  | LClear => False
  | _ => row_label st l
  end.

Definition loads_label (l : label) : Prop := exists st, loader_label st l.

Definition main_label (l : label) : Prop :=
  match l with
  | LClear => True
  | _ => loads_label l
  end.

(** A relation between the world before and after holds of a computation. *)
Definition respects (R : World -> World -> Prop) {A} (m : M A) : Prop :=
  forall w, R w (run m w).

(** A relation contains the steps of a kind. *)
Definition closed (R : World -> World -> Prop) (l : label) : Prop :=
  forall w w', prim l w w' -> R w w'.

Definition closed_on (R : World -> World -> Prop) (S : label -> Prop) : Prop :=
  forall l, S l -> closed R l.

(** Relations between the world before and after a run. *)
Definition keeps_papers_keyed (w w' : World) : Prop :=
  papers_keyed (db w) -> papers_keyed (db w').

Definition keeps_impl_refs (w w' : World) : Prop :=
  impl_refs_valid (db w) -> impl_refs_valid (db w').

(** The outcome and the final world of a computation satisfy [Q]. *)
Definition wp {A} (m : M A) (w : World) (Q : result A -> World -> Prop) : Prop :=
  Q (outcome m w) (run m w).

(** What the second half of an evaluation row leaves alone. *)
Definition result_frame (w w' : World) : Prop :=
  benchmarks (db w') = benchmarks (db w)
  /\ inserted_benchmarks (counters w') = inserted_benchmarks (counters w)
  /\ skipped (counters w') = skipped (counters w)
  /\ inserted (counters w') = inserted (counters w)
  /\ log w' = log w.

(** The benchmark_results table only grows at its end. *)
Definition results_extended (w w' : World) : Prop :=
  exists l, benchmark_results (db w') = benchmark_results (db w) ++ l.

(** A stream's rows taken up so far are the same before and after. *)
Definition same_attempts (st : stream) (w w' : World) : Prop :=
  attempted st (log w') = attempted st (log w).

(** ** Accounting of rows *)

Definition loaded_or_skipped (c : Counters) : nat := inserted c + skipped c.

Definition upserted_or_skipped (c : Counters) : nat :=
  inserted_benchmarks c + skipped c.

(** Rows counted by the loader's counters. *)
Definition counted (cnt : Counters -> nat) (w : World) : nat := cnt (counters w).

(** Rows counted by the counters or reported as a row error. *)
Definition tallied (cnt : Counters -> nat) (st : stream) (w : World) : nat :=
  cnt (counters w) + row_errors st (log w).

Definition same_measure (C : World -> nat) (w w' : World) : Prop := C w' = C w.

(** ** Checkpoint across a run *)

(** Neither the checkpoint dict nor the checkpoint file is touched. *)
Definition same_ckpt (w w' : World) : Prop :=
  ckpt_mem w' = ckpt_mem w /\ ckpt_file w' = ckpt_file w.

(** The history only grew, without a clear, and the file is what the
    history says: the last saved checkpoint, or what was there before. *)
Definition saved_only (w w' : World) : Prop :=
  exists l, log w' = log w ++ l
    /\ existsb is_clear l = false
    /\ ckpt_file w' = file_after (ckpt_file w) l.

(** The world in which [main] enters its [try] block. *)
Definition at_try (args : Args) (w : World) : World :=
  run (main_checkpoint args) (add_event (EvPrint MsgBanner) w).

(** What a loader prints when its parquet file is missing. *)
Definition missing_file_notice (st : stream) (w : World) : World :=
  add_event (EvPrint (MsgRunDownload st)) (add_event (EvPrint (MsgFileNotFound st)) w).

(** A run that did no work: the tables and the checkpoint are as before
    and no source row of any stream was taken up. *)
Definition idle (w w' : World) : Prop :=
  db w' = db w /\ ckpt_mem w' = ckpt_mem w /\ ckpt_file w' = ckpt_file w
  /\ forall st, attempted st (log w') = attempted st (log w).

Definition all_complete (c : Checkpoint) : Prop :=
  forall st, get_complete st c = true.

(** * Sample data *)

(** A stand-in for the library functions in the examples.  The sample rows
    carry no author list, no date and no metric string, so none of these
    functions is ever called on them. *)
Definition demo_lib : PyLib :=
  mkPyLib (fun _ => None) (fun _ => EmptyString) (fun _ => None)
    (fun _ => []) (fun _ => None).

(** An implementations table without a uniqueness constraint. *)
Definition no_conflict (old new : ImplRec) : bool := false.

Definition plain_args : Args := mkArgs false false false.

Definition paper (arxiv_id : cell) (title : string) : PaperRow :=
  mkPaperRow arxiv_id (Some title) None None None AuthorsNone DateMissing.

(** The three-row papers source of the scenario. *)
Definition scenario_rows : list PaperRow :=
  [paper (Some "a1"%string) "P1"; paper None "P2";
   paper (Some "a1"%string) "P1-dup"].

(** A data directory with the given papers source, the other three
    sources empty, no checkpoint file and an empty database. *)
Definition world_of (rows : list PaperRow) (fs : list fault) : World :=
  mkWorld true None (Some rows) (Some []) (Some []) (Some []) empty_store fs
    None zero_counters [].

Definition scenario_world : World :=
  set_ckpt_mem (Some fresh_checkpoint) (world_of scenario_rows []).

(** A checkpoint left by an interrupted run: papers resume at row 1. *)
Definition resume_checkpoint : Checkpoint :=
  mkCheckpoint 1 0 0 0 false false false false.

Definition resume_world : World :=
  set_ckpt_mem (Some resume_checkpoint)
    (set_ckpt_file (Some resume_checkpoint) (world_of scenario_rows [])).

Definition done_checkpoint : Checkpoint :=
  mkCheckpoint 1000 0 0 0 true true true true.

(** A code link to a paper that was never loaded. *)
Definition orphan_link : LinkRow :=
  mkLinkRow (Some "zz"%string) (Some "https://github.com/o/r"%string) None
    OfficialAbsent.

(** An evaluation row without paper, and the tables it meets. *)
Definition eval_sample : EvalRow :=
  mkEvalRow (Some "d1"%string) (Some "t1"%string) None None ValueMissing.

Definition bench_store : Store :=
  mkStore []
    [mkDatasetRec 1 (Some "d1"%string) None None None None] []
    [mkBenchRec 1 (Some "d1 - t1"%string) (Some 1) (Some "old"%string)] [].

Definition bench_world : World :=
  set_db bench_store (world_of [] []).

(** * Further vocabulary *)

(** How many batches a history committed. *)
Fixpoint commits (l : list Event) : nat :=
  match l with
  | [] => 0
  | EvCommit :: t => S (commits t)
  | _ :: t => commits t
  end.

(** No Ctrl-C among the coming round trips. *)
Definition no_interrupt (fs : list fault) : bool :=
  forallb (fun f => match f with Interrupt => false | _ => true end) fs.

(** The non-null values of a column. *)
Definition named {A} (l : list (option A)) : list A :=
  flat_map (fun o => match o with Some x => [x] | None => [] end) l.

(** The uniqueness constraints of the papers and datasets tables. *)
Definition papers_unique (s : Store) : Prop :=
  NoDup (named (map p_arxiv_id (papers s))).

Definition datasets_unique (s : Store) : Prop :=
  NoDup (named (map d_name (datasets s))).

Definition keeps_unique (w w' : World) : Prop :=
  (papers_unique (db w) -> papers_unique (db w'))
  /\ (datasets_unique (db w) -> datasets_unique (db w')).

(** A loader touches the offset and the flag of its own stream only. *)
Definition own_fields_only (st : stream) (c c' : Checkpoint) : Prop :=
  forall st', st' <> st ->
    get_offset st' c' = get_offset st' c
    /\ get_complete st' c' = get_complete st' c.

(** With no Ctrl-C among the round trips to come, the computation does not
    raise [KeyboardInterrupt], and none is to come after it. *)
Definition steady {A} (m : M A) : Prop :=
  forall w, no_interrupt (faults w) = true ->
    no_interrupt (faults (run m w)) = true
    /\ outcome m w <> Raise KeyboardInterrupt.

(** The same, and the computation returns. *)
Definition unfailing (m : M unit) : Prop :=
  forall w, no_interrupt (faults w) = true ->
    no_interrupt (faults (run m w)) = true /\ outcome m w = Ret tt.

(** What a loader of stream [st] does to the checkpoint: nothing, or the
    dict and the file now hold the same checkpoint, which differs from the
    dict before in the two fields of [st] only. *)
Definition checkpoint_progress (st : stream) (w w' : World) : Prop :=
  same_ckpt w w'
  \/ exists c c', ckpt_mem w = Some c /\ ckpt_mem w' = Some c'
       /\ ckpt_file w' = Some c' /\ own_fields_only st c c'.

(** A batch is committed exactly when its step returns, and a step that
    does not return leaves the checkpoint as it was. *)
Definition commit_then_save (step : M unit) (w : World) : Prop :=
  let w' := run step w in
  match outcome step w with
  | Ret _ => commits (log w') = S (commits (log w))
  | Raise _ => same_ckpt w w' /\ commits (log w') = commits (log w)
  end.

(** Every row of the batch that starts at row [i] is taken up, and the
    loop over the rows returns. *)
Definition batch_taken_up (st : stream) {Row} (body : Row -> M unit)
    (rows : list Row) (bs i : nat) (w : World) : Prop :=
  outcome (batch_rows st body rows bs i) w = Ret tt
  /\ attempted st (log (run (batch_rows st body rows bs i) w)) =
     attempted st (log w) ++ seq i (Nat.min bs (List.length rows - i)).

(** * Reasoning about runs *)

Lemma run_bind {A B} (m : M A) (k : A -> M B) w :
  run (bind m k) w =
  match outcome m w with
  | Ret a => run (k a) (run m w)
  | Raise _ => run m w
  end.
Proof.
  unfold run, outcome, bind. destruct (m w) as [[a|e] w']; reflexivity.
Qed.

Lemma outcome_bind {A B} (m : M A) (k : A -> M B) w :
  outcome (bind m k) w =
  match outcome m w with
  | Ret a => outcome (k a) (run m w)
  | Raise e => Raise e
  end.
Proof.
  unfold run, outcome, bind. destruct (m w) as [[a|e] w']; reflexivity.
Qed.

Lemma run_try {A} (m : M A) catches h w :
  run (try_except m catches h) w =
  match outcome m w with
  | Ret _ => run m w
  | Raise e => if catches e then run (h e) (run m w) else run m w
  end.
Proof.
  unfold run, outcome, try_except.
  destruct (m w) as [[a|e] w']; simpl; auto. destruct (catches e); reflexivity.
Qed.

Lemma outcome_try {A} (m : M A) catches h w :
  outcome (try_except m catches h) w =
  match outcome m w with
  | Ret a => Ret a
  | Raise e => if catches e then outcome (h e) (run m w) else Raise e
  end.
Proof.
  unfold run, outcome, try_except.
  destruct (m w) as [[a|e] w']; simpl; auto. destruct (catches e); reflexivity.
Qed.

Lemma set_db_same w : set_db (db w) w = w.
Proof. destruct w; reflexivity. Qed.

Lemma set_db_eq w s : db w = s -> set_db s w = w.
Proof. intros <-. apply set_db_same. Qed.

Lemma set_faults_same w : set_faults (faults w) w = w.
Proof. destruct w; reflexivity. Qed.

Ltac lbl := simpl; unfold row_counter; simpl; auto 6.

Section Respects.

Variable R : World -> World -> Prop.
Hypothesis R_refl : forall w, R w w.
Hypothesis R_trans : forall a b c, R a b -> R b c -> R a c.

Lemma respects_ret {A} (a : A) : respects R (ret a).
Proof. intro w. apply R_refl. Qed.

Lemma respects_raise {A} e : respects R (@raise A e).
Proof. intro w. apply R_refl. Qed.

Lemma respects_get {A} (f : World -> A) : respects R (get f).
Proof. intro w. apply R_refl. Qed.

Lemma respects_bind {A B} (m : M A) (k : A -> M B) :
  respects R m -> (forall a, respects R (k a)) -> respects R (bind m k).
Proof.
  intros Hm Hk w. rewrite run_bind. destruct (outcome m w).
  - eapply R_trans; [apply Hm | apply Hk].
  - apply Hm.
Qed.

Lemma respects_try {A} (m : M A) catches h :
  respects R m -> (forall e, respects R (h e)) ->
  respects R (try_except m catches h).
Proof.
  intros Hm Hh w. rewrite run_try. destruct (outcome m w) as [a|e].
  - apply Hm.
  - destruct (catches e).
    + eapply R_trans; [apply Hm | apply Hh].
    + apply Hm.
Qed.

Lemma respects_for_each {A} (body : A -> M unit) l :
  (forall a, respects R (body a)) -> respects R (for_each body l).
Proof.
  intro Hb. induction l as [|a t IH]; simpl.
  - apply respects_ret.
  - apply respects_bind; auto.
Qed.

Lemma respects_print m : closed R (LPrint m) -> respects R (print m).
Proof. intros H w. apply H. constructor. Qed.

Lemma respects_update_counters f :
  closed R (LCounters f) -> respects R (update_counters f).
Proof. intros H w. apply H. constructor. Qed.

Lemma respects_round_trip : closed R LFaults -> respects R round_trip.
Proof.
  intros H w. unfold run, round_trip.
  destruct (faults w) as [|[| |] fs]; simpl;
    try apply R_refl; apply H; constructor.
Qed.

Lemma respects_commit :
  closed R LFaults -> closed R LCommit -> respects R commit.
Proof.
  intros H1 H2. apply respects_bind.
  - apply respects_round_trip, H1.
  - intros _ w. apply H2. constructor.
Qed.

(** A statement whose effect on the tables is a step of kind [l]. *)
Lemma respects_execute {A} (stmt : Store -> A * Store) l :
  closed R LFaults -> closed R l ->
  (forall w, prim l w (set_db (snd (stmt (db w))) w)) ->
  respects R (execute stmt).
Proof.
  intros H1 H2 Hs. apply respects_bind.
  - apply respects_round_trip, H1.
  - intros _ w. unfold run. specialize (Hs w).
    destruct (stmt (db w)) as [a s]. simpl in *. apply H2, Hs.
Qed.

Lemma respects_query {A} (q : Store -> A) :
  closed R LFaults -> respects R (query q).
Proof.
  intros H. apply respects_bind.
  - apply respects_round_trip, H.
  - intros _ w. unfold run. simpl. rewrite set_db_same. apply R_refl.
Qed.

(** After a query, the rest runs on the answer the tables give. *)
Lemma respects_query_bind {A B} (q : Store -> A) (k : A -> M B) :
  closed R LFaults ->
  (forall w, R w (run (k (q (db w))) w)) ->
  respects R (bind (query q) k).
Proof.
  intros H Hk w. unfold run, bind, query, execute, bind, round_trip.
  destruct (faults w) as [|[| |] fs] eqn:E; simpl.
  - rewrite set_db_same. apply Hk.
  - rewrite (set_db_eq (set_faults fs w)) by reflexivity. eapply R_trans.
    + apply H. apply (prim_faults w fs).
    + apply (Hk (set_faults fs w)).
  - apply H. constructor.
  - apply H. constructor.
Qed.

Lemma respects_save_checkpoint c :
  closed R (LSave c) -> respects R (save_checkpoint c).
Proof. intros H w. apply H. constructor. Qed.

Lemma respects_clear_checkpoint : closed R LClear -> respects R clear_checkpoint.
Proof.
  intros H w. unfold run, clear_checkpoint, bind, get.
  destruct (ckpt_file w); simpl; [apply H; constructor | apply R_refl].
Qed.

Lemma respects_load_checkpoint : respects R load_checkpoint.
Proof.
  intros w. unfold run, load_checkpoint, bind, get.
  destruct (ckpt_file w); simpl; apply R_refl.
Qed.

(** The same for a statement whose arguments depend on the tables. *)
Lemma run_execute_bind {A B} (stmt : Store -> A * Store) (k : A -> M B) l w :
  closed R LFaults -> closed R l ->
  (forall w', db w' = db w -> prim l w' (set_db (snd (stmt (db w'))) w')) ->
  (forall a, respects R (k a)) ->
  R w (run (bind (execute stmt) k) w).
Proof.
  intros H1 H2 Hs Hk. rewrite run_bind.
  assert (Hx : R w (run (execute stmt) w)).
  { unfold run, execute, bind, round_trip.
    destruct (faults w) as [|[| |] fs] eqn:E; simpl.
    - specialize (Hs w eq_refl). destruct (stmt (db w)) as [a s]. simpl in *.
      apply H2, Hs.
    - specialize (Hs (set_faults fs w) eq_refl). simpl in Hs.
      destruct (stmt (db w)) as [a s]. simpl in *.
      eapply R_trans; [apply H1, (prim_faults w fs) | apply H2, Hs].
    - apply H1. constructor.
    - apply H1. constructor. }
  destruct (outcome (execute stmt) w); auto.
  eapply R_trans; [exact Hx | apply Hk].
Qed.

(** *** The row bodies *)

Lemma paper_row_respects lib row :
  closed_on R (row_label Papers) -> respects R (paper_row lib row).
Proof.
  intro H. unfold paper_row, try_except_Exception. apply respects_try.
  - destruct (pw_arxiv_id row).
    + apply respects_bind.
      * apply respects_execute with (l := LPaper);
          [apply H; lbl | apply H; reflexivity | intro; constructor].
      * intros [r|]; apply respects_update_counters, H; lbl.
    + apply respects_update_counters, H. lbl.
  - intro. apply respects_print, H. reflexivity.
Qed.

Lemma dataset_row_respects lib row :
  closed_on R (row_label Datasets) -> respects R (dataset_row lib row).
Proof.
  intro H. unfold dataset_row, try_except_Exception. apply respects_try.
  - apply respects_bind.
    + apply respects_execute with (l := LDataset);
        [apply H; lbl | apply H; reflexivity | intro; constructor].
    + intros [r|]; apply respects_update_counters, H; lbl.
  - intro. apply respects_print, H. reflexivity.
Qed.

Lemma link_row_respects impl_conflict row :
  closed_on R (row_label Links) -> respects R (link_row impl_conflict row).
Proof.
  intro H. unfold link_row, try_except_Exception. apply respects_try.
  - destruct (negb (cell_truthy (lw_repo_url row)));
      [apply respects_update_counters, H; lbl|].
    destruct (lw_paper_arxiv_id row) as [a|];
      [|apply respects_update_counters, H; lbl].
    apply respects_query_bind; [apply H; lbl|].
    intro w. destruct (select_paper_id (Some a) (db w)) as [pid|] eqn:E.
    + apply run_execute_bind with (l := LImpl).
      * apply H. lbl.
      * apply H. reflexivity.
      * intros w' Hw'. econstructor. rewrite Hw'. exact E.
      * intros [r|]; apply respects_update_counters, H; lbl.
    + apply respects_update_counters, H. lbl.
  - intro. apply respects_print, H. reflexivity.
Qed.

Lemma record_result_respects lib row bid :
  closed_on R result_label -> respects R (record_result lib row bid).
Proof.
  intro H.
  assert (HF : closed R LFaults) by (apply H; lbl).
  unfold record_result. apply respects_bind.
  { destruct (ew_paper_arxiv_id row);
      [apply respects_query, HF | apply respects_ret]. }
  intro pid.
  destruct (id_truthy pid && cell_truthy (ew_metric row)
            && value_notna (ew_value row)); [|apply respects_ret].
  destruct (to_float lib (ew_value row)) as [x|]; [|apply respects_ret].
  apply respects_bind.
  { apply respects_execute with (l := LResult);
      [exact HF | apply H; lbl | intro; constructor]. }
  intros [r|]; [apply respects_update_counters, H; lbl | apply respects_ret].
Qed.

Lemma result_label_row l : result_label l -> row_label Eval l.
Proof. destruct l; simpl; auto; try contradiction. intros ->. lbl. Qed.

Lemma eval_row_respects lib row :
  closed_on R (row_label Eval) -> respects R (eval_row lib row).
Proof.
  intro H.
  assert (HF : closed R LFaults) by (apply H; lbl).
  unfold eval_row, try_except_Exception. apply respects_try.
  - destruct (ew_dataset row) as [d|];
      [|apply respects_update_counters, H; lbl].
    destruct (ew_task row) as [t|];
      [|apply respects_update_counters, H; lbl].
    apply respects_bind; [apply respects_query, HF|]. intro did.
    apply respects_bind.
    { apply respects_execute with (l := LBench);
        [exact HF | apply H; reflexivity | intro; constructor]. }
    intro bid.
    apply respects_bind; [apply respects_update_counters, H; lbl|]. intros _.
    apply record_result_respects. intros l Hl. apply H, result_label_row, Hl.
  - intro. apply respects_print, H. reflexivity.
Qed.

(** *** The loaders and the orchestrator *)

Lemma batch_rows_respects st Row (body : Row -> M unit) rows bs i :
  (forall ix, closed R (LAttempt st ix)) ->
  (forall row, respects R (body row)) ->
  respects R (batch_rows st body rows bs i).
Proof.
  intros H Hb. unfold batch_rows.
  apply respects_for_each; auto. intros [ix row]. apply respects_bind; auto.
  intros w. apply (H ix). constructor.
Qed.

Lemma batch_commit_respects st Row progress (rows : list Row) bs i :
  (forall a b c, progress a b c <> MsgRowError st) ->
  closed_on R (commit_label st) ->
  respects R (batch_commit st progress rows bs i).
Proof.
  intros Hp H. unfold batch_commit.
  apply respects_bind.
  { apply respects_commit; auto; apply H; lbl. }
  intros _. apply respects_bind; [apply respects_get|]. intros cp.
  apply respects_bind.
  { destruct cp as [c|]; [|apply respects_ret].
    apply respects_bind.
    - intro w. apply (H LMem); [lbl | constructor].
    - intros _. apply respects_save_checkpoint, H. lbl. }
  intros _. apply respects_bind; [apply respects_get|]. intros c.
  apply respects_print, H. simpl. apply Hp.
Qed.

Lemma finish_stream_respects st summary tally :
  (forall c, summary c <> MsgRowError st) ->
  closed_on R (commit_label st) ->
  respects R (finish_stream st summary tally).
Proof.
  intros Hp H. unfold finish_stream.
  apply respects_bind; [apply respects_get|]. intros cp.
  apply respects_bind.
  { destruct cp as [c|]; [|apply respects_ret].
    apply respects_bind.
    - intro w. apply (H LMem); [lbl | constructor].
    - intros _. apply respects_save_checkpoint, H. lbl. }
  intros _. apply respects_bind; [apply respects_get|]. intros c.
  apply respects_bind; [apply respects_print, H; simpl; apply Hp|].
  intros _. apply respects_ret.
Qed.

Lemma commit_label_loader st l : commit_label st l -> loader_label st l.
Proof. destruct l; simpl; auto; contradiction. Qed.

Lemma batch_step_respects st Row (body : Row -> M unit) progress rows bs i :
  (forall a b c, progress a b c <> MsgRowError st) ->
  closed_on R (loader_label st) ->
  (forall row, respects R (body row)) ->
  respects R (batch_step st body progress rows bs i).
Proof.
  intros Hp H Hb. unfold batch_step. apply respects_bind.
  - apply batch_rows_respects; auto. intro ix. apply H. reflexivity.
  - intros _. apply batch_commit_respects; auto.
    intros l Hl. apply H, commit_label_loader, Hl.
Qed.

Lemma batch_loader_respects st Row (source : World -> option (list Row))
    (body : Row -> M unit) progress summary tally bs :
  (forall a b c, progress a b c <> MsgRowError st) ->
  (forall c, summary c <> MsgRowError st) ->
  closed_on R (loader_label st) ->
  (forall row, respects R (body row)) ->
  respects R (batch_loader st source body progress summary tally bs).
Proof.
  intros Hp Hs H Hb.
  assert (HP : forall m, respects R (print m)).
  { intro m. apply respects_print, H. lbl. }
  unfold batch_loader.
  apply respects_bind; [apply respects_get|]. intros [rows|].
  2:{ apply respects_bind; [apply HP|]. intros _.
      apply respects_bind; [apply HP|]. intros _. apply respects_ret. }
  apply respects_bind; [apply respects_get|]. intros cp.
  destruct (match cp with Some c => get_complete st c | None => false end).
  { apply respects_bind; [apply HP|]. intros _. apply respects_ret. }
  apply respects_bind; [apply HP|]. intros _.
  apply respects_bind; [apply HP|]. intros _.
  apply respects_bind.
  { intro w. apply (H (LCounters (fun _ => zero_counters))); [lbl|].
    apply (prim_counters w (fun _ => zero_counters)). }
  intros _. apply respects_bind.
  { destruct (bs =? 0); [apply respects_raise|].
    apply respects_for_each; auto. intro i.
    apply batch_step_respects; auto. }
  intros _. apply finish_stream_respects; auto.
  intros l Hl. apply H, commit_label_loader, Hl.
Qed.

Lemma loader_label_row st l : row_label st l -> loader_label st l.
Proof. destruct l; simpl; auto; contradiction. Qed.

Lemma closed_on_row st :
  closed_on R (loader_label st) -> closed_on R (row_label st).
Proof. intros H l Hl. apply H, loader_label_row, Hl. Qed.

Lemma load_papers_respects lib bs :
  closed_on R (loader_label Papers) -> respects R (load_papers lib bs).
Proof.
  intro H. apply batch_loader_respects; auto; try discriminate.
  intro. apply paper_row_respects, closed_on_row, H.
Qed.

Lemma load_datasets_respects lib bs :
  closed_on R (loader_label Datasets) -> respects R (load_datasets lib bs).
Proof.
  intro H. apply batch_loader_respects; auto; try discriminate.
  intro. apply dataset_row_respects, closed_on_row, H.
Qed.

Lemma load_code_links_respects impl_conflict bs :
  closed_on R (loader_label Links) -> respects R (load_code_links impl_conflict bs).
Proof.
  intro H. apply batch_loader_respects; auto; try discriminate.
  intro. apply link_row_respects, closed_on_row, H.
Qed.

Lemma load_evaluation_tables_respects lib bs :
  closed_on R (loader_label Eval) -> respects R (load_evaluation_tables lib bs).
Proof.
  intro H. apply batch_loader_respects; auto; try discriminate.
  intro. apply eval_row_respects, closed_on_row, H.
Qed.

Lemma main_loads_respects lib impl_conflict :
  closed_on R loads_label -> respects R (main_loads lib impl_conflict).
Proof.
  intros H.
  assert (HL : forall st, closed_on R (loader_label st)).
  { intros st l Hl. apply H. exists st. exact Hl. }
  unfold main_loads.
  apply respects_bind.
  { apply respects_round_trip. apply H. exists Papers. lbl. }
  intros _. apply respects_bind.
  { apply respects_print, H. exists Papers. lbl. }
  intros _.
  apply respects_bind; [apply load_papers_respects, HL|]. intro a.
  apply respects_bind; [apply load_datasets_respects, HL|]. intro b.
  apply respects_bind; [apply load_code_links_respects, HL|]. intro c.
  apply respects_bind; [apply load_evaluation_tables_respects, HL|].
  intro d. apply respects_ret.
Qed.

Lemma main_finish_respects counts :
  (forall m, closed R (LPrint m)) -> closed R LClear ->
  respects R (main_finish counts).
Proof.
  intros HP HC. destruct counts as [[[a b] c] d]. unfold main_finish.
  repeat (apply respects_bind; [apply respects_print, HP | intros _]).
  apply respects_clear_checkpoint; auto.
Qed.

Lemma closed_on_loads : closed_on R main_label -> closed_on R loads_label.
Proof.
  intros H l Hl. apply H. destruct l; simpl; auto.
Qed.

Lemma main_try_respects lib impl_conflict :
  closed_on R main_label -> respects R (main_try lib impl_conflict).
Proof.
  intro H. unfold main_try. apply respects_bind.
  - apply main_loads_respects, closed_on_loads, H.
  - intro counts. apply main_finish_respects.
    + intro m. apply H. exists Papers. lbl.
    + apply H. lbl.
Qed.

Lemma main_except_respects e :
  (forall m, closed R (LPrint m)) -> respects R (main_except e).
Proof.
  intro H. destruct e; unfold main_except;
    repeat (apply respects_bind; [apply respects_print, H | intros _]);
    apply respects_print, H.
Qed.

Lemma main_checkpoint_respects args :
  (forall m, closed R (LPrint m)) -> closed R LClear -> closed R LMem ->
  respects R (main_checkpoint args).
Proof.
  intros H HC HMem.
  assert (HM : forall c, respects R (modify (set_ckpt_mem (Some c)))).
  { intros c w. apply HMem. constructor. }
  unfold main_checkpoint. destruct (fresh args).
  - apply respects_bind; [apply respects_print, H|]. intros _.
    apply respects_bind; [apply respects_clear_checkpoint; auto|].
    intros _. apply respects_bind; [apply respects_load_checkpoint; auto|].
    intro c. apply HM.
  - apply respects_bind; [apply respects_load_checkpoint; auto|]. intro c.
    apply respects_bind; [apply HM|]. intros _.
    destruct (papers_complete c || datasets_complete c || links_complete c
              || eval_complete c);
      repeat (apply respects_bind; [apply respects_print, H | intros _]);
      apply respects_print, H.
Qed.

Lemma main_print m : closed_on R main_label -> respects R (print m).
Proof.
  intro H. apply respects_print, H. simpl. exists Papers. lbl.
Qed.

Lemma main_respects lib impl_conflict args :
  closed_on R main_label -> respects R (main lib impl_conflict args).
Proof.
  intro H. unfold main.
  apply respects_bind; [apply main_print, H|]. intros _.
  destruct (clear_checkpoint_flag args).
  - apply respects_bind; [apply respects_get|]. intros [c|].
    + apply respects_bind; [|intros _; apply main_print, H].
      apply respects_clear_checkpoint; auto. apply H. lbl.
    + apply main_print, H.
  - apply respects_bind; [apply respects_get|]. intros dir.
    destruct (negb dir); [apply main_print, H|].
    assert (HP : forall m, closed R (LPrint m)).
    { intro m. apply H. exists Papers. lbl. }
    apply respects_bind.
    { apply main_checkpoint_respects; auto; apply H; try (exists Papers); lbl. }
    intros _. apply respects_try.
    + apply main_try_respects, H.
    + intro e. apply main_except_respects, HP.
Qed.

End Respects.

Lemma main_label_loader st l : loader_label st l -> main_label l.
Proof. destruct l; simpl; auto; intro H; exists st; exact H. Qed.

Lemma main_label_row st l : row_label st l -> main_label l.
Proof.
  intro H. apply (main_label_loader st). destruct l; simpl in *; auto; contradiction.
Qed.

(** ** The tables under the statements *)

Lemma insert_paper_tables t a k u p d au s :
  let s' := snd (insert_paper t a k u p d au s) in
  (papers s' = papers s
   \/ papers s' = papers s ++ [mkPaperRec (fresh_id (map p_id (papers s))) t a k u p d au])
  /\ datasets s' = datasets s /\ implementations s' = implementations s
  /\ benchmarks s' = benchmarks s /\ benchmark_results s' = benchmark_results s.
Proof.
  unfold insert_paper. destruct (existsb _ _); simpl; auto 10.
Qed.

Lemma insert_dataset_tables n de mo h pu s :
  let s' := snd (insert_dataset n de mo h pu s) in
  papers s' = papers s /\ implementations s' = implementations s
  /\ benchmarks s' = benchmarks s /\ benchmark_results s' = benchmark_results s.
Proof.
  unfold insert_dataset. destruct (existsb _ _); simpl; auto.
Qed.

Lemma insert_implementation_tables ic pid g f o s :
  let s' := snd (insert_implementation ic pid g f o s) in
  (implementations s' = implementations s
   \/ implementations s' =
      implementations s
        ++ [mkImplRec (fresh_id (map i_id (implementations s))) pid g f o])
  /\ papers s' = papers s /\ datasets s' = datasets s
  /\ benchmarks s' = benchmarks s /\ benchmark_results s' = benchmark_results s.
Proof.
  unfold insert_implementation. destruct (existsb _ _); simpl; auto 10.
Qed.

Lemma upsert_benchmark_tables n d t s :
  let s' := snd (upsert_benchmark n d t s) in
  papers s' = papers s /\ datasets s' = datasets s
  /\ implementations s' = implementations s
  /\ benchmark_results s' = benchmark_results s.
Proof.
  unfold upsert_benchmark. destruct (find _ _); simpl; auto.
Qed.

Lemma insert_result_tables p b m v s :
  let s' := snd (insert_result p b m v s) in
  (benchmark_results s' = benchmark_results s
   \/ benchmark_results s' =
      benchmark_results s
        ++ [mkResultRec (fresh_id (map r_id (benchmark_results s))) p b m v])
  /\ papers s' = papers s /\ datasets s' = datasets s
  /\ implementations s' = implementations s /\ benchmarks s' = benchmarks s.
Proof.
  unfold insert_result. destruct (existsb _ _); simpl; auto 10.
Qed.

(** ** Natural keys of the papers table *)

Lemma keeps_papers_keyed_closed : closed_on keeps_papers_keyed main_label.
Proof.
  intros l _ w w' Hp. unfold keeps_papers_keyed, papers_keyed.
  destruct Hp; simpl; auto.
  - destruct (insert_paper_tables title abstract (Some key) url pdf published
                authors (db w)) as [[E|E] _]; rewrite E; auto.
    intros H p Hin. apply in_app_iff in Hin. destruct Hin as [Hin|[<-|[]]].
    + apply H, Hin.
    + simpl. discriminate.
  - destruct (insert_dataset_tables name description modalities homepage
                paper_url (db w)) as [E _]. rewrite E. auto.
  - destruct (insert_implementation_tables impl_conflict (Some paper_id)
                github_url framework official (db w)) as (_ & E & _).
    rewrite E. auto.
  - destruct (upsert_benchmark_tables (Some name) dataset_id (Some task) (db w))
      as [E _]. rewrite E. auto.
  - destruct (insert_result_tables paper_id (Some benchmark_id) metric_name
                (Some x) (db w)) as (_ & E & _).
    rewrite E. auto.
Qed.

Lemma main_keeps_papers_keyed lib impl_conflict args w :
  papers_keyed (db w) -> papers_keyed (db (run (main lib impl_conflict args) w)).
Proof.
  apply (main_respects (R := keeps_papers_keyed)).
  - intros ? H. exact H.
  - intros a b c H1 H2 H. apply H2, H1, H.
  - apply keeps_papers_keyed_closed.
Qed.

Lemma paper_row_missing_key lib row w :
  pw_arxiv_id row = None ->
  outcome (paper_row lib row) w = Ret tt
  /\ run (paper_row lib row) w = set_counters (incr_skipped (counters w)) w.
Proof.
  intro H. unfold outcome, run, paper_row, try_except_Exception, try_except.
  rewrite H. split; reflexivity.
Qed.

(** ** References of the implementations table *)

Lemma select_paper_id_in a s pid :
  select_paper_id a s = Some pid -> In pid (map p_id (papers s)).
Proof.
  unfold select_paper_id. intro H.
  destruct (find _ (papers s)) as [p|] eqn:E; simpl in H; [|discriminate].
  injection H as <-. apply find_some in E. apply in_map, E.
Qed.


Lemma keeps_impl_refs_closed : closed_on keeps_impl_refs main_label.
Proof.
  intros l _ w w' Hp. unfold keeps_impl_refs, impl_refs_valid.
  destruct Hp; simpl; auto.
  - destruct (insert_paper_tables title abstract (Some key) url pdf published
                authors (db w)) as ([E|E] & _ & Ei & _); rewrite E, Ei; auto.
    intros H r Hin. destruct (H r Hin) as (pid & H1 & H2).
    exists pid. split; auto. rewrite map_app. apply in_or_app. auto.
  - destruct (insert_dataset_tables name description modalities homepage
                paper_url (db w)) as (E & Ei & _). rewrite E, Ei. auto.
  - destruct (insert_implementation_tables impl_conflict (Some paper_id)
                github_url framework official (db w)) as ([Ei|Ei] & E & _);
      rewrite E, Ei; auto.
    intros Hv r Hin. apply in_app_iff in Hin. destruct Hin as [Hin|[<-|[]]].
    + apply Hv, Hin.
    + exists paper_id. split; [reflexivity|].
      eapply select_paper_id_in; eassumption.
  - destruct (upsert_benchmark_tables (Some name) dataset_id (Some task) (db w))
      as (E & _ & Ei & _). rewrite E, Ei. auto.
  - destruct (insert_result_tables paper_id (Some benchmark_id) metric_name
                (Some x) (db w)) as (_ & E & _ & Ei & _).
    rewrite E, Ei. auto.
Qed.

Lemma keeps_impl_refs_refl w : keeps_impl_refs w w.
Proof. intro H. exact H. Qed.

Lemma keeps_impl_refs_trans a b c :
  keeps_impl_refs a b -> keeps_impl_refs b c -> keeps_impl_refs a c.
Proof. intros H1 H2 H. apply H2, H1, H. Qed.

Lemma main_keeps_impl_refs lib impl_conflict args w :
  impl_refs_valid (db w) ->
  impl_refs_valid (db (run (main lib impl_conflict args) w)).
Proof.
  apply (main_respects keeps_impl_refs_refl keeps_impl_refs_trans).
  apply keeps_impl_refs_closed.
Qed.

Lemma link_row_keeps_impl_refs impl_conflict row w :
  impl_refs_valid (db w) ->
  impl_refs_valid (db (run (link_row impl_conflict row) w)).
Proof.
  apply (link_row_respects (R := keeps_impl_refs));
    [exact keeps_impl_refs_trans|].
  intros l Hl. apply keeps_impl_refs_closed.
  eapply main_label_row, Hl.
Qed.

(** A link row whose paper is not in the papers table: the tables stay as
    they are, whatever the round trip does. *)
Lemma link_row_paper_absent_db impl_conflict row w :
  select_paper_id (lw_paper_arxiv_id row) (db w) = None ->
  db (run (link_row impl_conflict row) w) = db w.
Proof.
  intro H.
  unfold run, link_row, try_except_Exception, try_except, query, execute, bind,
    round_trip, update_counters, modify, print.
  destruct (negb (cell_truthy (lw_repo_url row))); simpl; auto.
  destruct (lw_paper_arxiv_id row) as [a|]; simpl; auto.
  destruct (faults w) as [|[| |] fs]; simpl; try rewrite H; simpl; auto.
Qed.

(** ... and when the lookup goes through, the row is counted as skipped. *)
Lemma link_row_paper_absent_skipped impl_conflict row w :
  select_paper_id (lw_paper_arxiv_id row) (db w) = None ->
  calm 1 (faults w) = true ->
  outcome (link_row impl_conflict row) w = Ret tt
  /\ counters (run (link_row impl_conflict row) w) = incr_skipped (counters w).
Proof.
  intros H Hc.
  unfold outcome, run, link_row, try_except_Exception, try_except, query, execute,
    bind, round_trip, update_counters, modify, print.
  destruct (negb (cell_truthy (lw_repo_url row))); simpl; auto.
  destruct (lw_paper_arxiv_id row) as [a|]; simpl; auto.
  destruct (faults w) as [|[| |] fs]; simpl in *; try discriminate;
    rewrite H; simpl; auto.
Qed.

(** ** Stepping through a computation *)

Lemma wp_ret {A} (a : A) w (Q : result A -> World -> Prop) :
  Q (Ret a) w -> wp (ret a) w Q.
Proof. auto. Qed.

Lemma wp_get {A} (f : World -> A) w (Q : result A -> World -> Prop) :
  Q (Ret (f w)) w -> wp (get f) w Q.
Proof. auto. Qed.

Lemma wp_modify f w (Q : result unit -> World -> Prop) :
  Q (Ret tt) (f w) -> wp (modify f) w Q.
Proof. auto. Qed.

Lemma wp_bind {A B} (m : M A) (k : A -> M B) w (Q : result B -> World -> Prop) :
  wp m w (fun r w1 =>
            match r with
            | Ret a => wp (k a) w1 Q
            | Raise e => Q (Raise e) w1
            end) ->
  wp (bind m k) w Q.
Proof.
  unfold wp. rewrite run_bind, outcome_bind. destruct (outcome m w); auto.
Qed.

Lemma wp_try {A} (m : M A) (catches : exn -> bool) (h : exn -> M A) w
    (Q : result A -> World -> Prop) :
  wp m w (fun r w1 =>
            match r with
            | Ret a => Q (Ret a) w1
            | Raise e => if catches e then wp (h e) w1 Q else Q (Raise e) w1
            end) ->
  wp (try_except m catches h) w Q.
Proof.
  unfold wp. rewrite run_try, outcome_try.
  destruct (outcome m w) as [a|e]; auto. destruct (catches e); auto.
Qed.

Lemma wp_respects R {A} (m : M A) w (Q : result A -> World -> Prop) :
  respects R m -> (forall r w', R w w' -> Q r w') -> wp m w Q.
Proof. intros H HQ. apply HQ, H. Qed.

Lemma wp_round_trip w (Q : result unit -> World -> Prop) :
  (forall fs, Q (Ret tt) (set_faults fs w)) ->
  (forall fs, Q (Raise DatabaseError) (set_faults fs w)) ->
  (forall fs, Q (Raise KeyboardInterrupt) (set_faults fs w)) ->
  wp round_trip w Q.
Proof.
  intros H1 H2 H3. unfold wp, outcome, run, round_trip.
  destruct (faults w) as [|[| |] fs] eqn:E; simpl; auto.
  specialize (H1 []). rewrite <- E, set_faults_same in H1. exact H1.
Qed.

Lemma wp_round_trip_calm n w (Q : result unit -> World -> Prop) :
  calm (S n) (faults w) = true ->
  (forall fs, calm n fs = true -> Q (Ret tt) (set_faults fs w)) ->
  wp round_trip w Q.
Proof.
  intros Hc H. unfold wp, outcome, run, round_trip.
  destruct (faults w) as [|[| |] fs] eqn:E; simpl in *; try discriminate; auto.
  assert (Hn : calm n [] = true) by (destruct n; reflexivity).
  specialize (H [] Hn). rewrite <- E, set_faults_same in H. exact H.
Qed.

Lemma wp_execute {A} (stmt : Store -> A * Store) w (Q : result A -> World -> Prop) :
  (forall fs, Q (Ret (fst (stmt (db w))))
                (set_db (snd (stmt (db w))) (set_faults fs w))) ->
  (forall fs, Q (Raise DatabaseError) (set_faults fs w)) ->
  (forall fs, Q (Raise KeyboardInterrupt) (set_faults fs w)) ->
  wp (execute stmt) w Q.
Proof.
  intros H1 H2 H3. unfold execute. apply wp_bind, wp_round_trip; auto.
  intro fs. unfold wp, outcome, run. simpl.
  specialize (H1 fs). destruct (stmt (db w)); exact H1.
Qed.

Lemma wp_execute_calm n {A} (stmt : Store -> A * Store) w
    (Q : result A -> World -> Prop) :
  calm (S n) (faults w) = true ->
  (forall fs, calm n fs = true ->
     Q (Ret (fst (stmt (db w)))) (set_db (snd (stmt (db w))) (set_faults fs w))) ->
  wp (execute stmt) w Q.
Proof.
  intros Hc H1. unfold execute. apply wp_bind.
  eapply wp_round_trip_calm; [exact Hc|].
  intros fs Hfs. unfold wp, outcome, run. simpl.
  specialize (H1 fs Hfs). destruct (stmt (db w)); exact H1.
Qed.

Lemma wp_query {A} (q : Store -> A) w (Q : result A -> World -> Prop) :
  (forall fs, Q (Ret (q (db w))) (set_faults fs w)) ->
  (forall fs, Q (Raise DatabaseError) (set_faults fs w)) ->
  (forall fs, Q (Raise KeyboardInterrupt) (set_faults fs w)) ->
  wp (query q) w Q.
Proof.
  intros H1 H2 H3. unfold query. apply wp_execute; auto.
Qed.

Lemma wp_query_calm n {A} (q : Store -> A) w (Q : result A -> World -> Prop) :
  calm (S n) (faults w) = true ->
  (forall fs, calm n fs = true -> Q (Ret (q (db w))) (set_faults fs w)) ->
  wp (query q) w Q.
Proof.
  intros Hc H1. unfold query. eapply wp_execute_calm; [exact Hc|].
  intros fs Hfs. apply (H1 fs Hfs).
Qed.

(** ** Evaluation rows *)

Lemma result_frame_refl w : result_frame w w.
Proof. repeat split. Qed.

Lemma result_frame_trans a b c :
  result_frame a b -> result_frame b c -> result_frame a c.
Proof.
  unfold result_frame. intros (H1 & H2 & H3 & H4 & H5) (K1 & K2 & K3 & K4 & K5).
  repeat split; congruence.
Qed.

Lemma result_frame_closed : closed_on result_frame result_label.
Proof.
  intros l Hl w w' Hp. unfold result_frame.
  destruct Hp; simpl in Hl; try contradiction; subst; simpl; auto 6.
  destruct (insert_result_tables paper_id (Some benchmark_id) metric_name
              (Some x) (db w)) as (_ & _ & _ & _ & E).
  rewrite E. auto 6.
Qed.

Lemma record_result_frame lib row bid w :
  result_frame w (run (record_result lib row bid) w).
Proof.
  apply (record_result_respects result_frame_refl result_frame_trans).
  apply result_frame_closed.
Qed.

(** An evaluation row with a dataset and a task, whose first two round
    trips go through: the benchmark is upserted and counted. *)
Lemma eval_row_benchmark lib row w d t :
  ew_dataset row = Some d -> ew_task row = Some t ->
  calm 2 (faults w) = true ->
  let w' := run (eval_row lib row) w in
  benchmarks (db w') =
    benchmarks (snd (upsert_benchmark (Some (benchmark_name d t))
                       (select_dataset_id (Some d) (db w)) (Some t) (db w)))
  /\ inserted_benchmarks (counters w') = S (inserted_benchmarks (counters w))
  /\ skipped (counters w') = skipped (counters w)
  /\ inserted (counters w') = inserted (counters w).
Proof.
  intros Hd Ht Hc.
  change (wp (eval_row lib row) w (fun _ w' =>
    benchmarks (db w') =
      benchmarks (snd (upsert_benchmark (Some (benchmark_name d t))
                         (select_dataset_id (Some d) (db w)) (Some t) (db w)))
    /\ inserted_benchmarks (counters w') = S (inserted_benchmarks (counters w))
    /\ skipped (counters w') = skipped (counters w)
    /\ inserted (counters w') = inserted (counters w))).
  unfold eval_row, try_except_Exception. rewrite Hd, Ht.
  apply wp_try, wp_bind. eapply wp_query_calm; [exact Hc|]. intros fs1 H1.
  apply wp_bind. eapply wp_execute_calm; [exact H1|]. intros fs2 _.
  apply wp_bind, wp_modify.
  eapply wp_respects; [intro; apply record_result_frame|].
  intros r w' (E1 & E2 & E3 & E4 & _). simpl in *.
  assert (benchmarks (db w') =
            benchmarks (snd (upsert_benchmark (Some (benchmark_name d t))
                               (select_dataset_id (Some d) (db w)) (Some t) (db w)))
          /\ inserted_benchmarks (counters w') = S (inserted_benchmarks (counters w))
          /\ skipped (counters w') = skipped (counters w)
          /\ inserted (counters w') = inserted (counters w)) as HQ by auto.
  destruct r as [[]|e]; auto.
  destruct (is_Exception e); auto.
Qed.

Lemma upsert_benchmark_conflict n d t s b :
  find (bench_key_eq n d) (benchmarks s) = Some b ->
  fst (upsert_benchmark n d t s) = b_id b
  /\ benchmarks (snd (upsert_benchmark n d t s)) = update_task n d t (benchmarks s).
Proof.
  intro H. unfold upsert_benchmark. rewrite H. split; reflexivity.
Qed.

Lemma find_bench_null n l : find (bench_key_eq n None) l = None.
Proof.
  induction l as [|b t IH]; simpl; auto.
  unfold bench_key_eq at 1. unfold sql_eq at 2.
  destruct (b_dataset_id b); rewrite andb_false_r; exact IH.
Qed.

(** With a null dataset reference the key never conflicts: a row is added. *)
Lemma upsert_benchmark_null n t s :
  benchmarks (snd (upsert_benchmark n None t s)) =
  benchmarks s ++ [mkBenchRec (fresh_id (map b_id (benchmarks s))) n None t].
Proof.
  unfold upsert_benchmark. rewrite find_bench_null. reflexivity.
Qed.

Lemma insert_result_conflict p b m v s :
  existsb (result_key_eq p b m) (benchmark_results s) = true ->
  insert_result p b m v s = (None, s).
Proof.
  intro H. unfold insert_result. rewrite H. reflexivity.
Qed.

Lemma results_extended_refl w : results_extended w w.
Proof. exists []. symmetry. apply app_nil_r. Qed.

Lemma results_extended_trans a b c :
  results_extended a b -> results_extended b c -> results_extended a c.
Proof.
  intros [l1 H1] [l2 H2]. exists (l1 ++ l2). rewrite H2, H1. symmetry. apply app_assoc.
Qed.

Lemma results_extended_closed : closed_on results_extended main_label.
Proof.
  intros l _ w w' Hp. unfold results_extended.
  destruct Hp; simpl; try (exists []; symmetry; apply app_nil_r).
  - destruct (insert_paper_tables title abstract (Some key) url pdf published
                authors (db w)) as (_ & _ & _ & _ & E).
    rewrite E. exists []. symmetry. apply app_nil_r.
  - destruct (insert_dataset_tables name description modalities homepage
                paper_url (db w)) as (_ & _ & _ & E).
    rewrite E. exists []. symmetry. apply app_nil_r.
  - destruct (insert_implementation_tables impl_conflict (Some paper_id)
                github_url framework official (db w)) as (_ & _ & _ & _ & E).
    rewrite E. exists []. symmetry. apply app_nil_r.
  - destruct (upsert_benchmark_tables (Some name) dataset_id (Some task) (db w))
      as (_ & _ & _ & E).
    rewrite E. exists []. symmetry. apply app_nil_r.
  - destruct (insert_result_tables paper_id (Some benchmark_id) metric_name
                (Some x) (db w)) as ([E|E] & _); rewrite E.
    + exists []. symmetry. apply app_nil_r.
    + eexists. reflexivity.
Qed.

Lemma main_results_extended lib impl_conflict args w :
  results_extended w (run (main lib impl_conflict args) w).
Proof.
  apply (main_respects results_extended_refl results_extended_trans).
  apply results_extended_closed.
Qed.

(** ** Which rows a loader takes up *)

Lemma stream_eqb_refl st : stream_eqb st st = true.
Proof. destruct st; reflexivity. Qed.

Lemma attempted_app st l1 l2 :
  attempted st (l1 ++ l2) = attempted st l1 ++ attempted st l2.
Proof.
  induction l1 as [|e t IH]; simpl; auto.
  destruct e; auto. destruct (stream_eqb st0 st); simpl; rewrite IH; reflexivity.
Qed.

Lemma attempted_snoc_other st l e :
  (forall i, e <> EvAttempt st i) -> attempted st (l ++ [e]) = attempted st l.
Proof.
  intro H. rewrite attempted_app. destruct e; simpl; try apply app_nil_r.
  destruct (stream_eqb st0 st) eqn:E; [|apply app_nil_r].
  exfalso. apply (H index). destruct st0, st; try discriminate; reflexivity.
Qed.

Lemma same_attempts_refl st w : same_attempts st w w.
Proof. reflexivity. Qed.

Lemma same_attempts_trans st a b c :
  same_attempts st a b -> same_attempts st b c -> same_attempts st a c.
Proof. unfold same_attempts. congruence. Qed.

(** Only the step that takes up a row of the stream changes the list. *)
Lemma same_attempts_step st l w w' :
  (forall i, l <> LAttempt st i) -> prim l w w' -> same_attempts st w w'.
Proof.
  intros Hl Hp. unfold same_attempts.
  destruct Hp; simpl; auto; try (apply attempted_snoc_other; discriminate).
  apply attempted_snoc_other. intros j E. apply (Hl i). congruence.
Qed.

Lemma same_attempts_row st0 st : closed_on (same_attempts st0) (row_label st).
Proof.
  intros l Hl w w' Hp. eapply same_attempts_step; [|exact Hp].
  intros i ->. exact Hl.
Qed.

Lemma same_attempts_commit st0 st : closed_on (same_attempts st0) (commit_label st).
Proof.
  intros l Hl w w' Hp. eapply same_attempts_step; [|exact Hp].
  intros i ->. exact Hl.
Qed.

Lemma same_attempts_loader st0 st :
  st <> st0 -> closed_on (same_attempts st0) (loader_label st).
Proof.
  intros Hne l Hl w w' Hp. eapply same_attempts_step; [|exact Hp].
  intros i ->. simpl in Hl. auto.
Qed.

Lemma firstn_seq_min m i k : firstn m (seq i k) = seq i (Nat.min m k).
Proof.
  revert i k. induction m as [|m IH]; intros i [|k]; simpl; auto.
  rewrite IH. reflexivity.
Qed.

Lemma map_fst_combine_seq {A} (l : list A) i n :
  List.length l <= n -> map fst (combine (seq i n) l) = seq i (List.length l).
Proof.
  revert i n. induction l as [|a t IH]; intros i n H.
  - destruct (seq i n); reflexivity.
  - destruct n as [|n]; simpl in *; [lia|]. rewrite IH by lia. reflexivity.
Qed.

Lemma iloc_indices {A} (rows : list A) i bs :
  map fst (iloc i (i + bs) rows) = seq i (Nat.min bs (List.length rows - i)).
Proof.
  unfold iloc. replace (i + bs - i) with bs by lia.
  rewrite map_fst_combine_seq; rewrite length_firstn, length_skipn; auto.
  apply Nat.le_min_l.
Qed.

Lemma iloc_length {A} (rows : list A) i bs :
  List.length (iloc i (i + bs) rows) = Nat.min bs (List.length rows - i).
Proof.
  rewrite <- (length_map fst), iloc_indices. apply length_seq.
Qed.

Section Attempts.

Variable st : stream.
Variable Row : Type.
Variable source : World -> option (list Row).
Variable body : Row -> M unit.
Variable progress : nat -> nat -> Counters -> Msg.
Variable summary : Counters -> Msg.
Variable tally : Counters -> nat.

Hypothesis progress_not_error : forall a b c, progress a b c <> MsgRowError st.
Hypothesis summary_not_error : forall c, summary c <> MsgRowError st.
Hypothesis body_quiet : forall row, respects (same_attempts st) (body row).

Lemma rows_attempts (l : list (nat * Row)) w :
  wp (for_each (fun ir => emit (EvAttempt st (fst ir)) ;; body (snd ir)) l) w
    (fun r w' =>
       exists m, m <= List.length l
         /\ attempted st (log w') = attempted st (log w) ++ firstn m (map fst l)
         /\ (r = Ret tt -> m = List.length l)).
Proof.
  revert w. induction l as [|[ix row] t IH]; intro w; simpl.
  - apply wp_ret. exists 0. rewrite app_nil_r. auto.
  - apply wp_bind, wp_bind, wp_modify.
    eapply wp_respects; [apply body_quiet|]. intros r w1 H1.
    unfold same_attempts in H1. simpl in H1.
    rewrite attempted_app in H1. simpl in H1. rewrite stream_eqb_refl in H1.
    destruct r as [[]|e].
    + specialize (IH w1). unfold wp in *.
      destruct IH as (m & Hm & Ha & Hr).
      exists (S m). split; [lia|]. split.
      * rewrite Ha, H1, <- app_assoc. reflexivity.
      * intro E. rewrite (Hr E). reflexivity.
    + exists 1. split; [lia|]. split.
      * rewrite H1. simpl. destruct (map fst t); reflexivity.
      * discriminate.
Qed.

Lemma batch_step_attempts rows bs i w :
  wp (batch_step st body progress rows bs i) w
    (fun r w' =>
       exists m, m <= Nat.min bs (List.length rows - i)
         /\ attempted st (log w') = attempted st (log w) ++ seq i m
         /\ (r = Ret tt -> m = Nat.min bs (List.length rows - i))).
Proof.
  unfold batch_step, batch_rows. apply wp_bind.
  pose proof (rows_attempts (iloc i (i + bs) rows) w) as H.
  unfold wp in *. rewrite iloc_indices, iloc_length in H.
  destruct H as (m & Hm & Ha & Hr).
  rewrite firstn_seq_min in Ha. rewrite (Nat.min_l m) in Ha by exact Hm.
  set (w1 := run _ w) in *.
  destruct (outcome _ w) as [[]|e].
  - assert (Hf : same_attempts st w1 (run (batch_commit st progress rows bs i) w1)).
    { apply (batch_commit_respects (same_attempts_refl st)
               (@same_attempts_trans st)); auto.
      apply same_attempts_commit. }
    exists m. split; [exact Hm|]. split.
    + rewrite Hf. exact Ha.
    + intros _. apply Hr. reflexivity.
  - exists m. split; [exact Hm|]. split; [exact Ha | discriminate].
Qed.

Lemma loop_attempts rows bs fuel :
  0 < bs ->
  forall k w, List.length rows - k <= fuel ->
  wp (for_each (batch_step st body progress rows bs)
        (range_from fuel k (List.length rows) bs)) w
    (fun r w' =>
       exists m, m <= List.length rows - k
         /\ attempted st (log w') = attempted st (log w) ++ seq k m
         /\ (r = Ret tt -> m = List.length rows - k)).
Proof.
  intro Hbs. induction fuel as [|f IH]; intros k w Hf.
  - simpl. apply wp_ret. exists 0. simpl. rewrite app_nil_r.
    repeat split; auto; lia.
  - simpl. destruct (k <? List.length rows) eqn:E.
    + apply Nat.ltb_lt in E. simpl. apply wp_bind.
      pose proof (batch_step_attempts rows bs k w) as H1.
      unfold wp in *. destruct H1 as (m1 & Hm1 & Ha1 & Hr1).
      set (w1 := run _ w) in *.
      destruct (outcome _ w) as [[]|e].
      * specialize (Hr1 eq_refl).
        assert (Hf' : List.length rows - (k + bs) <= f) by lia.
        specialize (IH (k + bs) w1 Hf'). destruct IH as (m2 & Hm2 & Ha2 & Hr2).
        exists (m1 + m2). split; [lia|]. split.
        -- rewrite Ha2, Ha1, <- app_assoc. f_equal.
           destruct (Nat.le_gt_cases bs (List.length rows - k)) as [Hle|Hgt].
           ++ rewrite Nat.min_l in Hr1 by exact Hle. subst m1.
              symmetry. apply seq_app.
           ++ assert (m2 = 0) by lia. subst m2.
              rewrite Nat.add_0_r. simpl. apply app_nil_r.
        -- intro Er. specialize (Hr2 Er). lia.
      * exists m1. split; [lia|]. split; [exact Ha1 | discriminate].
    + apply Nat.ltb_ge in E. apply wp_ret. exists 0. simpl. rewrite app_nil_r.
      repeat split; auto; lia.
Qed.

(** A loader that resumes at offset [k] takes up the rows [k, k+1, ...]
    in this order, each once; all of them when it returns. *)
Lemma batch_loader_attempts rows cp bs w :
  0 < bs ->
  source w = Some rows -> ckpt_mem w = Some cp -> get_complete st cp = false ->
  wp (batch_loader st source body progress summary tally bs) w
    (fun r w' =>
       exists m, m <= List.length rows - get_offset st cp
         /\ attempted st (log w') =
            attempted st (log w) ++ seq (get_offset st cp) m
         /\ (forall v, r = Ret v -> m = List.length rows - get_offset st cp)).
Proof.
  intros Hbs Hsrc Hcp Hc. unfold batch_loader.
  apply wp_bind, wp_get. rewrite Hsrc.
  apply wp_bind, wp_get. rewrite Hcp, Hc.
  apply wp_bind, wp_modify. apply wp_bind, wp_modify. apply wp_bind, wp_modify.
  destruct (bs =? 0) eqn:E; [apply Nat.eqb_eq in E; lia|].
  apply wp_bind.
  match goal with |- wp _ ?w0 _ => set (w1 := w0) end.
  pose proof (@loop_attempts rows bs (List.length rows) Hbs (get_offset st cp) w1)
    as H.
  unfold py_range, wp in *. specialize (H ltac:(lia)).
  destruct H as (m & Hm & Ha & Hr).
  assert (E1 : attempted st (log w1) = attempted st (log w)).
  { subst w1. simpl. rewrite !attempted_app. simpl. rewrite !app_nil_r. reflexivity. }
  rewrite E1 in Ha.
  set (w2 := run _ w1) in *.
  destruct (outcome _ w1) as [[]|e].
  - assert (Hf : same_attempts st w2 (run (finish_stream st summary tally) w2)).
    { apply (finish_stream_respects (same_attempts_refl st)
               (@same_attempts_trans st)); auto.
      apply same_attempts_commit. }
    exists m. split; [exact Hm|]. split.
    + rewrite Hf. exact Ha.
    + intros v _. apply Hr. reflexivity.
  - exists m. split; [exact Hm|]. split; [exact Ha | discriminate].
Qed.

End Attempts.

(** ** Accounting of rows *)

Lemma row_errors_app st l1 l2 :
  row_errors st (l1 ++ l2) = row_errors st l1 + row_errors st l2.
Proof.
  induction l1 as [|e t IH]; simpl; auto.
  destruct e; auto. destruct m; auto.
  destruct (stream_eqb st0 st); simpl; rewrite IH; reflexivity.
Qed.

Lemma row_errors_snoc_other st l e :
  e <> EvPrint (MsgRowError st) -> row_errors st (l ++ [e]) = row_errors st l.
Proof.
  intro H. rewrite row_errors_app.
  assert (E : row_errors st [e] = 0); [|rewrite E; apply Nat.add_0_r].
  destruct e; simpl; auto. destruct m; auto.
  destruct (stream_eqb st0 st) eqn:E; auto.
  exfalso. apply H. destruct st0, st; try discriminate; reflexivity.
Qed.

Lemma same_measure_refl C w : same_measure C w w.
Proof. reflexivity. Qed.

Lemma same_measure_trans C a b c :
  same_measure C a b -> same_measure C b c -> same_measure C a c.
Proof. unfold same_measure. congruence. Qed.

Lemma counted_commit cnt st : closed_on (same_measure (counted cnt)) (commit_label st).
Proof.
  intros l Hl w w' Hp. unfold same_measure, counted.
  destruct Hp; simpl in Hl; try contradiction; reflexivity.
Qed.

Lemma tallied_commit cnt st :
  closed_on (same_measure (tallied cnt st)) (commit_label st).
Proof.
  intros l Hl w w' Hp. unfold same_measure, tallied.
  destruct Hp; simpl in Hl; try contradiction; simpl; auto;
    rewrite row_errors_snoc_other; auto; try discriminate.
  congruence.
Qed.

Lemma counted_attempt cnt st i : closed (same_measure (counted cnt)) (LAttempt st i).
Proof. intros w w' Hp. inversion Hp; subst. reflexivity. Qed.

Lemma tallied_attempt cnt st st' i :
  closed (same_measure (tallied cnt st)) (LAttempt st' i).
Proof.
  intros w w' Hp. inversion Hp; subst. unfold same_measure, tallied. simpl.
  rewrite row_errors_snoc_other; auto. discriminate.
Qed.

Section Accounting.

Variable st : stream.
Variable Row : Type.
Variable body : Row -> M unit.
Variable progress : nat -> nat -> Counters -> Msg.
Variables C T : World -> nat.

Hypothesis progress_not_error : forall a b c, progress a b c <> MsgRowError st.
Hypothesis C_commit : closed_on (same_measure C) (commit_label st).
Hypothesis T_commit : closed_on (same_measure T) (commit_label st).
Hypothesis C_attempt : forall i, closed (same_measure C) (LAttempt st i).
Hypothesis T_attempt : forall i, closed (same_measure T) (LAttempt st i).
Hypothesis body_C : forall row w, C (run (body row) w) <= S (C w).
Hypothesis body_T :
  forall row w, outcome (body row) w = Ret tt -> S (T w) <= T (run (body row) w).

Lemma rows_accounting (l : list (nat * Row)) w :
  wp (for_each (fun ir => emit (EvAttempt st (fst ir)) ;; body (snd ir)) l) w
    (fun r w' =>
       C w' <= C w + List.length l
       /\ (r = Ret tt -> T w + List.length l <= T w')).
Proof.
  revert w. induction l as [|[ix row] t IH]; intro w; simpl.
  - apply wp_ret. split; intros; lia.
  - apply wp_bind, wp_bind, wp_modify.
    assert (EC : C (add_event (EvAttempt st ix) w) = C w).
    { apply (@C_attempt ix). constructor. }
    assert (ET : T (add_event (EvAttempt st ix) w) = T w).
    { apply (@T_attempt ix). constructor. }
    set (w0 := add_event (EvAttempt st ix) w) in *.
    pose proof (body_C row w0) as HC. pose proof (body_T row w0) as HT.
    unfold wp at 1. set (w1 := run (body row) w0) in *.
    destruct (outcome (body row) w0) as [[]|e].
    + specialize (IH w1). unfold wp in *. destruct IH as [IC IT].
      specialize (HT eq_refl). split; [lia|]. intro E. specialize (IT E). lia.
    + split; [lia | discriminate].
Qed.

Lemma batch_step_accounting rows bs i w :
  let n := List.length (iloc i (i + bs) rows) in
  let w' := run (batch_step st body progress rows bs i) w in
  C w' <= C w + n
  /\ (outcome (batch_step st body progress rows bs i) w = Ret tt ->
      T w + n <= T w').
Proof.
  simpl. unfold batch_step. rewrite run_bind, outcome_bind.
  destruct (rows_accounting (iloc i (i + bs) rows) w) as [HC HT].
  fold (batch_rows st body rows bs i) in *.
  set (w1 := run (batch_rows st body rows bs i) w) in *.
  destruct (outcome (batch_rows st body rows bs i) w) as [[]|e].
  - assert (EC : C (run (batch_commit st progress rows bs i) w1) = C w1).
    { apply (batch_commit_respects (R := same_measure C)); auto.
      - apply same_measure_refl.
      - apply same_measure_trans. }
    assert (ET : T (run (batch_commit st progress rows bs i) w1) = T w1).
    { apply (batch_commit_respects (R := same_measure T)); auto.
      - apply same_measure_refl.
      - apply same_measure_trans. }
    rewrite EC, ET. split; [exact HC|]. intros _. apply HT. reflexivity.
  - split; [exact HC | discriminate].
Qed.

End Accounting.

Ltac tally_leaf :=
  unfold tallied, counted, loaded_or_skipped, upserted_or_skipped in *;
  simpl in *; rewrite ?row_errors_app; simpl;
  split; [try lia | intros; try discriminate; try lia].

(** Every row of the first three loaders ends in exactly one of: counted
    as inserted, counted as skipped, reported as a row error - unless the
    run is interrupted in the middle of it. *)
Lemma paper_row_tally lib row w :
  wp (paper_row lib row) w (fun r w' =>
    tallied loaded_or_skipped Papers w' <= S (tallied loaded_or_skipped Papers w)
    /\ (r = Ret tt ->
        tallied loaded_or_skipped Papers w' = S (tallied loaded_or_skipped Papers w))).
Proof.
  unfold paper_row, try_except_Exception. apply wp_try.
  destruct (pw_arxiv_id row) as [a|].
  - apply wp_bind, wp_execute; intro fs.
    + destruct (fst _) as [id|]; apply wp_modify; tally_leaf.
    + simpl. apply wp_modify. tally_leaf.
    + simpl. tally_leaf.
  - apply wp_modify. tally_leaf.
Qed.

Lemma dataset_row_tally lib row w :
  wp (dataset_row lib row) w (fun r w' =>
    tallied loaded_or_skipped Datasets w' <= S (tallied loaded_or_skipped Datasets w)
    /\ (r = Ret tt ->
        tallied loaded_or_skipped Datasets w'
        = S (tallied loaded_or_skipped Datasets w))).
Proof.
  unfold dataset_row, try_except_Exception. apply wp_try.
  apply wp_bind, wp_execute; intro fs.
  - destruct (fst _) as [id|]; apply wp_modify; tally_leaf.
  - simpl. apply wp_modify. tally_leaf.
  - simpl. tally_leaf.
Qed.

Lemma link_row_tally impl_conflict row w :
  wp (link_row impl_conflict row) w (fun r w' =>
    tallied loaded_or_skipped Links w' <= S (tallied loaded_or_skipped Links w)
    /\ (r = Ret tt ->
        tallied loaded_or_skipped Links w' = S (tallied loaded_or_skipped Links w))).
Proof.
  unfold link_row, try_except_Exception. apply wp_try.
  destruct (negb (cell_truthy (lw_repo_url row))); [apply wp_modify; tally_leaf|].
  destruct (lw_paper_arxiv_id row) as [a|]; [|apply wp_modify; tally_leaf].
  apply wp_bind, wp_query; intro fs.
  - destruct (select_paper_id (Some a) (db w)) as [pid|];
      [|apply wp_modify; tally_leaf].
    apply wp_bind, wp_execute; intro fs'.
    + destruct (fst _) as [id|]; apply wp_modify; tally_leaf.
    + simpl. apply wp_modify. tally_leaf.
    + simpl. tally_leaf.
  - simpl. apply wp_modify. tally_leaf.
  - simpl. tally_leaf.
Qed.

(** An evaluation row is counted at most once by [inserted_benchmarks] and
    [skipped]; when it is counted by neither, it is reported as an error. *)
Lemma eval_row_tally lib row w :
  wp (eval_row lib row) w (fun r w' =>
    counted upserted_or_skipped w' <= S (counted upserted_or_skipped w)
    /\ (r = Ret tt ->
        S (tallied upserted_or_skipped Eval w) <= tallied upserted_or_skipped Eval w')).
Proof.
  unfold eval_row, try_except_Exception. apply wp_try.
  destruct (ew_dataset row) as [d|]; [|apply wp_modify; tally_leaf].
  destruct (ew_task row) as [t|]; [|apply wp_modify; tally_leaf].
  apply wp_bind, wp_query; intro fs.
  - apply wp_bind, wp_execute; intro fs'.
    + apply wp_bind, wp_modify.
      eapply wp_respects; [intro; apply record_result_frame|].
      intros r w' (_ & E2 & E3 & _ & E5). simpl in *.
      destruct r as [[]|e].
      * unfold tallied, counted, upserted_or_skipped. rewrite E2, E3, E5.
        simpl. split; intros; lia.
      * destruct (is_Exception e).
        -- apply wp_modify. unfold tallied, counted, upserted_or_skipped. simpl.
           rewrite E2, E3, E5, row_errors_app. simpl. split; intros; lia.
        -- unfold tallied, counted, upserted_or_skipped. rewrite E2, E3.
           simpl. split; [lia | discriminate].
    + simpl. apply wp_modify. tally_leaf.
    + simpl. tally_leaf.
  - simpl. apply wp_modify. tally_leaf.
  - simpl. tally_leaf.
Qed.

(** ** The checkpoint after a batch *)

Lemma same_ckpt_refl w : same_ckpt w w.
Proof. split; reflexivity. Qed.

Lemma same_ckpt_trans a b c : same_ckpt a b -> same_ckpt b c -> same_ckpt a c.
Proof. unfold same_ckpt. intros [H1 H2] [H3 H4]. split; congruence. Qed.

Lemma same_ckpt_step l w w' :
  match l with LMem | LSave _ | LClear => False | _ => True end ->
  prim l w w' -> same_ckpt w w'.
Proof.
  intros Hl Hp. destruct Hp; simpl in Hl; try contradiction; split; reflexivity.
Qed.

Lemma same_ckpt_row st : closed_on same_ckpt (row_label st).
Proof.
  intros l Hl w w' Hp. eapply same_ckpt_step; [|exact Hp].
  destruct l; simpl in *; auto.
Qed.

Lemma same_ckpt_attempt st i : closed same_ckpt (LAttempt st i).
Proof. intros w w' Hp. eapply same_ckpt_step; [|exact Hp]. exact I. Qed.

Lemma paper_row_same_ckpt lib row : respects same_ckpt (paper_row lib row).
Proof.
  apply paper_row_respects;
    first [apply same_ckpt_refl | apply same_ckpt_trans | apply same_ckpt_row].
Qed.

Lemma dataset_row_same_ckpt lib row : respects same_ckpt (dataset_row lib row).
Proof.
  apply dataset_row_respects;
    first [apply same_ckpt_refl | apply same_ckpt_trans | apply same_ckpt_row].
Qed.

Lemma link_row_same_ckpt ic row : respects same_ckpt (link_row ic row).
Proof.
  apply link_row_respects;
    first [apply same_ckpt_refl | apply same_ckpt_trans | apply same_ckpt_row].
Qed.

Lemma eval_row_same_ckpt lib row : respects same_ckpt (eval_row lib row).
Proof.
  apply eval_row_respects;
    first [apply same_ckpt_refl | apply same_ckpt_trans | apply same_ckpt_row].
Qed.

Section BatchCheckpoint.

Variable st : stream.
Variable Row : Type.
Variable body : Row -> M unit.
Variable progress : nat -> nat -> Counters -> Msg.
Hypothesis body_ckpt : forall row, respects same_ckpt (body row).

(** The offset written at the end of a batch is [i + batch_size]; the
    length of the source plays no part in it. *)
Lemma batch_commit_checkpoint (rows : list Row) bs i c w :
  ckpt_mem w = Some c ->
  outcome (batch_commit st progress rows bs i) w = Ret tt ->
  let w' := run (batch_commit st progress rows bs i) w in
  ckpt_file w' = Some (set_offset st (i + bs) c)
  /\ ckpt_mem w' = Some (set_offset st (i + bs) c).
Proof.
  intros Hc. unfold outcome, run, batch_commit, commit, bind, round_trip, get,
    save_checkpoint, bind, emit, print, modify, ret.
  destruct (faults w) as [|[| |] fs]; simpl; rewrite ?Hc; simpl;
    try discriminate; auto.
Qed.

Lemma batch_step_checkpoint rows bs i c w :
  ckpt_mem w = Some c ->
  outcome (batch_step st body progress rows bs i) w = Ret tt ->
  let w' := run (batch_step st body progress rows bs i) w in
  ckpt_file w' = Some (set_offset st (i + bs) c)
  /\ ckpt_mem w' = Some (set_offset st (i + bs) c).
Proof.
  intros Hc. unfold batch_step. rewrite run_bind, outcome_bind.
  assert (Hf : same_ckpt w (run (batch_rows st body rows bs i) w)).
  { apply (batch_rows_respects same_ckpt_refl same_ckpt_trans); auto.
    intro ix. apply same_ckpt_attempt. }
  destruct Hf as [Hm _]. rewrite Hc in Hm.
  destruct (outcome (batch_rows st body rows bs i) w) as [[]|e];
    [|discriminate].
  intro Ho. apply batch_commit_checkpoint; auto.
Qed.

End BatchCheckpoint.

(** ** A missing source file *)

Lemma batch_loader_missing st Row (source : World -> option (list Row))
    body progress summary tally bs w :
  source w = None ->
  batch_loader st source body progress summary tally bs w
  = (Ret 0, missing_file_notice st w).
Proof.
  intro H. unfold batch_loader, bind, get. rewrite H. reflexivity.
Qed.

Lemma bind_missing {B} st Row (source : World -> option (list Row))
    body progress summary tally bs (k : nat -> M B) w :
  source w = None ->
  bind (batch_loader st source body progress summary tally bs) k w
  = k 0 (missing_file_notice st w).
Proof.
  intro H. unfold bind at 1. rewrite batch_loader_missing by exact H. reflexivity.
Qed.

(** ** The end of the [try] block *)

Lemma main_finish_clears counts w :
  outcome (main_finish counts) w = Ret tt
  /\ ckpt_file (run (main_finish counts) w) = None.
Proof.
  destruct counts as [[[a b] c] d].
  unfold outcome, run, main_finish, clear_checkpoint, bind, print, modify, get, emit.
  destruct w as [? f ? ? ? ? ? ? ? ? ?]. destruct f; simpl; auto.
Qed.

(** When the four loaders have returned, the checkpoint file is deleted. *)
Lemma main_try_clears lib impl_conflict w :
  outcome (main_try lib impl_conflict) w = Ret tt ->
  ckpt_file (run (main_try lib impl_conflict) w) = None.
Proof.
  unfold main_try. rewrite run_bind, outcome_bind.
  destruct (outcome (main_loads lib impl_conflict) w) as [counts|e];
    [|discriminate].
  intros _. apply main_finish_clears.
Qed.

(** When the [try] block raises, it raised before the summary. *)
Lemma main_try_raises lib impl_conflict w e :
  outcome (main_try lib impl_conflict) w = Raise e ->
  outcome (main_loads lib impl_conflict) w = Raise e
  /\ run (main_try lib impl_conflict) w = run (main_loads lib impl_conflict) w.
Proof.
  unfold main_try. rewrite run_bind, outcome_bind.
  destruct (outcome (main_loads lib impl_conflict) w) as [counts|e'].
  - destruct (main_finish_clears counts (run (main_loads lib impl_conflict) w))
      as [E _].
    rewrite E. discriminate.
  - intro H. injection H as ->. split; reflexivity.
Qed.

Lemma main_checkpoint_returns args w : outcome (main_checkpoint args) w = Ret tt.
Proof.
  unfold outcome, main_checkpoint, clear_checkpoint, load_checkpoint,
    bind, print, modify, get, emit, ret.
  destruct w as [? f ? ? ? ? ? ? ? ? ?]. destruct (fresh args); simpl.
  - destruct f; simpl; reflexivity.
  - destruct f as [c|]; simpl.
    + destruct (papers_complete c || datasets_complete c || links_complete c
                || eval_complete c); reflexivity.
    + reflexivity.
Qed.

Lemma main_unfold lib impl_conflict args w :
  clear_checkpoint_flag args = false -> data_dir_exists w = true ->
  main lib impl_conflict args w
  = try_except (main_try lib impl_conflict) (fun _ => true) main_except
      (at_try args w).
Proof.
  intros Hc Hd. unfold main, at_try. rewrite Hc.
  unfold bind, print, modify, get. simpl. rewrite Hd. simpl.
  pose proof (main_checkpoint_returns args (add_event (EvPrint MsgBanner) w)) as Hr.
  unfold outcome, run in *.
  destruct (main_checkpoint args (add_event (EvPrint MsgBanner) w)) as [r w1].
  simpl in *. subst r. reflexivity.
Qed.

(** ** The checkpoint file across the loaders *)

Lemma file_after_app f l1 l2 :
  file_after f (l1 ++ l2) = file_after (file_after f l1) l2.
Proof.
  revert f. induction l1 as [|e t IH]; intro f; simpl; auto.
  destruct e; apply IH.
Qed.

Lemma saved_only_refl w : saved_only w w.
Proof. exists []. rewrite app_nil_r. auto. Qed.

Lemma saved_only_trans a b c : saved_only a b -> saved_only b c -> saved_only a c.
Proof.
  intros (l1 & H1 & H2 & H3) (l2 & K1 & K2 & K3). exists (l1 ++ l2).
  rewrite K1, H1, app_assoc, existsb_app, H2, K2, file_after_app, <- H3.
  auto.
Qed.

Lemma saved_only_quiet w w' :
  log w' = log w -> ckpt_file w' = ckpt_file w -> saved_only w w'.
Proof. intros H1 H2. exists []. rewrite app_nil_r. auto. Qed.

Lemma saved_only_event e w :
  match e with EvSave _ | EvClear => False | _ => True end ->
  saved_only w (add_event e w).
Proof.
  intro H. exists [e]. destruct e; simpl in *; try contradiction; auto.
Qed.

Lemma saved_only_step l w w' : l <> LClear -> prim l w w' -> saved_only w w'.
Proof.
  intros Hl Hp.
  destruct Hp; try (apply saved_only_quiet; reflexivity);
    try (apply saved_only_event; exact I).
  - exists [EvSave c]. simpl. auto.
  - exfalso. apply Hl. reflexivity.
Qed.

Lemma saved_only_loads : closed_on saved_only loads_label.
Proof.
  intros l [st Hl] w w' Hp. eapply saved_only_step; [|exact Hp].
  intros ->. exact Hl.
Qed.

Lemma main_loads_saved_only lib impl_conflict w :
  saved_only w (run (main_loads lib impl_conflict) w).
Proof.
  apply main_loads_respects;
    first [apply saved_only_refl | apply saved_only_trans | apply saved_only_loads].
Qed.

Lemma main_except_run e w :
  exists l,
    main_except e w = (Ret tt, fold_left (fun w0 m => add_event (EvPrint m) w0) l w)
    /\ In MsgProgressSaved l.
Proof.
  destruct e.
  - exists [MsgInterrupted; MsgProgressSaved]. simpl. auto.
  - exists [MsgError; MsgProgressSaved; MsgTraceback]. simpl. auto.
  - exists [MsgError; MsgProgressSaved; MsgTraceback]. simpl. auto.
Qed.

Lemma prints_saved_only l w :
  let w' := fold_left (fun w0 m => add_event (EvPrint m) w0) l w in
  log w' = log w ++ map EvPrint l /\ ckpt_file w' = ckpt_file w.
Proof.
  revert w. induction l as [|m t IH]; intro w; simpl.
  - rewrite app_nil_r. auto.
  - destruct (IH (add_event (EvPrint m) w)) as [H1 H2]. simpl in *.
    rewrite H1, H2, <- app_assoc. auto.
Qed.

Lemma file_after_prints f l : file_after f (map EvPrint l) = f.
Proof. induction l; simpl; auto. Qed.

Lemma no_clear_prints l : existsb is_clear (map EvPrint l) = false.
Proof. induction l; simpl; auto. Qed.

(** A run whose [try] block raises: [main] catches the exception, prints
    the resume notice and returns; the checkpoint file is never cleared. *)
Lemma main_aborted lib impl_conflict args w e :
  clear_checkpoint_flag args = false -> data_dir_exists w = true ->
  outcome (main_try lib impl_conflict) (at_try args w) = Raise e ->
  outcome (main lib impl_conflict args) w = Ret tt
  /\ exists l,
       log (run (main lib impl_conflict args) w) = log (at_try args w) ++ l
       /\ In (EvPrint MsgProgressSaved) l
       /\ existsb is_clear l = false
       /\ ckpt_file (run (main lib impl_conflict args) w)
          = file_after (ckpt_file (at_try args w)) l.
Proof.
  intros Hc Hd He. unfold outcome at 1, run at 1 2.
  rewrite (main_unfold lib impl_conflict args w Hc Hd).
  fold (outcome (try_except (main_try lib impl_conflict) (fun _ => true) main_except)
          (at_try args w)).
  fold (run (try_except (main_try lib impl_conflict) (fun _ => true) main_except)
          (at_try args w)).
  rewrite outcome_try, run_try, He.
  destruct (main_try_raises lib impl_conflict (at_try args w) He) as [_ Er].
  rewrite Er.
  destruct (main_loads_saved_only lib impl_conflict (at_try args w))
    as (l1 & H1 & H2 & H3).
  set (w2 := run (main_loads lib impl_conflict) (at_try args w)) in *.
  destruct (main_except_run e w2) as (l2 & E2 & Hin).
  unfold outcome, run. rewrite E2. simpl. split; [reflexivity|].
  destruct (prints_saved_only l2 w2) as [P1 P2].
  exists (l1 ++ map EvPrint l2).
  rewrite P1, P2, H1, app_assoc, existsb_app, H2, no_clear_prints,
    file_after_app, <- H3, file_after_prints.
  repeat split; auto.
  apply in_or_app. right. apply in_map, Hin.
Qed.

(** ** Entering the [try] block *)

Lemma at_try_spec args w :
  let w1 := at_try args w in
  ckpt_mem w1 =
    Some (if fresh args then fresh_checkpoint
          else match ckpt_file w with Some c => c | None => fresh_checkpoint end)
  /\ ckpt_file w1 = (if fresh args then None else ckpt_file w)
  /\ db w1 = db w /\ faults w1 = faults w
  /\ src_papers w1 = src_papers w /\ src_datasets w1 = src_datasets w
  /\ src_links w1 = src_links w /\ src_eval w1 = src_eval w
  /\ forall st, attempted st (log w1) = attempted st (log w).
Proof.
  unfold at_try, run, main_checkpoint, clear_checkpoint, load_checkpoint,
    bind, print, modify, get, emit, ret.
  destruct w as [? f ? ? ? ? ? ? ? ? lg]. destruct (fresh args); simpl.
  - destruct f; simpl; repeat split; auto; intro st;
      rewrite !attempted_app; simpl; rewrite ?app_nil_r; reflexivity.
  - destruct f as [c|]; simpl.
    + destruct (papers_complete c || datasets_complete c || links_complete c
                || eval_complete c); simpl; repeat split; auto; intro st;
        rewrite !attempted_app; simpl; rewrite ?app_nil_r; reflexivity.
    + repeat split; auto; intro st.
      rewrite !attempted_app. simpl. rewrite ?app_nil_r. reflexivity.
Qed.

(** ** The papers rows of a whole run *)

Lemma paper_row_quiet lib row : respects (same_attempts Papers) (paper_row lib row).
Proof.
  apply paper_row_respects;
    first [apply same_attempts_refl | apply same_attempts_trans
          | apply same_attempts_row].
Qed.

Lemma load_papers_attempts lib bs rows cp w :
  0 < bs ->
  src_papers w = Some rows -> ckpt_mem w = Some cp -> papers_complete cp = false ->
  wp (load_papers lib bs) w
    (fun r w' =>
       exists m, m <= List.length rows - papers_offset cp
         /\ attempted Papers (log w') =
            attempted Papers (log w) ++ seq (papers_offset cp) m
         /\ (forall v, r = Ret v -> m = List.length rows - papers_offset cp)).
Proof.
  intros Hbs Hs Hc Hp.
  apply (batch_loader_attempts (st := Papers)) with (cp := cp); auto;
    try discriminate.
  apply paper_row_quiet.
Qed.

Lemma later_loaders_quiet lib impl_conflict (a : nat) :
  respects (same_attempts Papers)
    (b <- load_datasets lib default_batch_size ;;
     c <- load_code_links impl_conflict default_batch_size ;;
     d <- load_evaluation_tables lib default_batch_size ;;
     ret (a, b, c, d)).
Proof.
  assert (Ht := @same_attempts_trans Papers).
  assert (Hr := same_attempts_refl Papers).
  apply respects_bind; try exact Ht.
  { apply load_datasets_respects; try exact Ht; try exact Hr.
    apply same_attempts_loader. discriminate. }
  intro b. apply respects_bind; try exact Ht.
  { apply load_code_links_respects; try exact Ht; try exact Hr.
    apply same_attempts_loader. discriminate. }
  intro c. apply respects_bind; try exact Ht.
  { apply load_evaluation_tables_respects; try exact Ht; try exact Hr.
    apply same_attempts_loader. discriminate. }
  intro d. apply respects_ret; try exact Hr.
Qed.

Lemma main_finish_quiet st counts : respects (same_attempts st) (main_finish counts).
Proof.
  apply main_finish_respects;
    first [apply same_attempts_refl | apply same_attempts_trans | idtac].
  - intros m w w' Hp. eapply same_attempts_step; [|exact Hp]. discriminate.
  - intros w w' Hp. eapply same_attempts_step; [|exact Hp]. discriminate.
Qed.

Lemma main_try_papers_attempts lib impl_conflict rows cp w :
  src_papers w = Some rows -> ckpt_mem w = Some cp -> papers_complete cp = false ->
  wp (main_try lib impl_conflict) w
    (fun r w' =>
       exists m, m <= List.length rows - papers_offset cp
         /\ attempted Papers (log w') =
            attempted Papers (log w) ++ seq (papers_offset cp) m
         /\ (r = Ret tt -> m = List.length rows - papers_offset cp)).
Proof.
  intros Hs Hc Hp. unfold main_try, main_loads.
  apply wp_bind, wp_bind. unfold connect_db. apply wp_round_trip; intro fs.
  2,3: exists 0; simpl; rewrite app_nil_r; repeat split; auto; try lia; discriminate.
  apply wp_bind, wp_modify. apply wp_bind.
  match goal with |- wp _ ?w0 _ => set (w1 := w0) end.
  assert (Hbs : 0 < default_batch_size) by (unfold default_batch_size; lia).
  pose proof (@load_papers_attempts lib default_batch_size rows cp w1 Hbs Hs Hc Hp)
    as H.
  unfold wp in *. destruct H as (m & Hm & Ha & Hr).
  assert (E1 : attempted Papers (log w1) = attempted Papers (log w)).
  { subst w1. simpl. rewrite attempted_app. simpl. apply app_nil_r. }
  rewrite E1 in Ha.
  set (w2 := run (load_papers lib default_batch_size) w1) in *.
  destruct (outcome (load_papers lib default_batch_size) w1) as [a|e].
  - specialize (Hr a eq_refl).
    pose proof (later_loaders_quiet lib impl_conflict a w2) as Hq.
    unfold same_attempts in Hq. set (w3 := run _ w2) in *.
    destruct (outcome _ w2) as [counts|e].
    + pose proof (main_finish_quiet Papers counts w3) as Hf.
      unfold same_attempts in Hf.
      exists m. rewrite Hf, Hq. auto.
    + exists m. rewrite Hq. repeat split; auto.
  - exists m. repeat split; auto. discriminate.
Qed.

Lemma main_except_quiet st e : respects (same_attempts st) (main_except e).
Proof.
  apply main_except_respects;
    first [apply same_attempts_refl | apply same_attempts_trans | idtac].
  intros m w w' Hp. eapply same_attempts_step; [|exact Hp]. discriminate.
Qed.

(** The papers rows a resumed run of [main] takes up. *)
Lemma main_papers_attempts lib impl_conflict args rows cp w :
  clear_checkpoint_flag args = false -> data_dir_exists w = true ->
  src_papers w = Some rows ->
  ckpt_mem (at_try args w) = Some cp -> papers_complete cp = false ->
  exists m, m <= List.length rows - papers_offset cp
    /\ attempted Papers (log (run (main lib impl_conflict args) w)) =
       attempted Papers (log w) ++ seq (papers_offset cp) m
    /\ (outcome (main_try lib impl_conflict) (at_try args w) = Ret tt ->
        m = List.length rows - papers_offset cp).
Proof.
  intros Hc Hd Hs Hm Hp.
  destruct (at_try_spec args w) as (_ & _ & _ & _ & Es & _ & _ & _ & Ea).
  rewrite <- Es in Hs.
  pose proof (main_try_papers_attempts lib impl_conflict (at_try args w) Hs Hm Hp)
    as H.
  unfold wp in H. destruct H as (m & Hle & Hatt & Hr).
  rewrite Ea in Hatt.
  exists m. split; [exact Hle|]. split; [|exact Hr].
  unfold run at 1. rewrite (main_unfold lib impl_conflict args w Hc Hd).
  fold (run (try_except (main_try lib impl_conflict) (fun _ => true) main_except)
          (at_try args w)).
  rewrite run_try.
  destruct (outcome (main_try lib impl_conflict) (at_try args w)) as [[]|e];
    [exact Hatt|].
  rewrite (main_except_quiet Papers e). exact Hatt.
Qed.

(** ** A run that starts from a complete checkpoint *)

Lemma idle_refl w : idle w w.
Proof. repeat split. Qed.

Lemma idle_trans a b c : idle a b -> idle b c -> idle a c.
Proof.
  intros (H1 & H2 & H3 & H4) (K1 & K2 & K3 & K4).
  unfold idle. split; [congruence|]. split; [congruence|]. split; [congruence|].
  intro st. rewrite K4. apply H4.
Qed.

Lemma idle_print m w : idle w (add_event (EvPrint m) w).
Proof.
  repeat split. intro st. simpl. apply attempted_snoc_other. discriminate.
Qed.

Lemma idle_faults fs w : idle w (set_faults fs w).
Proof. repeat split. Qed.

Lemma batch_loader_complete st Row (source : World -> option (list Row))
    body progress summary tally bs c w :
  ckpt_mem w = Some c -> get_complete st c = true ->
  outcome (batch_loader st source body progress summary tally bs) w = Ret 0
  /\ idle w (run (batch_loader st source body progress summary tally bs) w).
Proof.
  intros Hm Hc. unfold outcome, run, batch_loader, bind, get, print, modify, ret.
  destruct (source w); simpl.
  - rewrite Hm, Hc. simpl. split; [reflexivity | apply idle_print].
  - split; [reflexivity|].
    eapply idle_trans; apply idle_print.
Qed.

Lemma main_loads_complete lib impl_conflict c w :
  ckpt_mem w = Some c -> all_complete c ->
  idle w (run (main_loads lib impl_conflict) w).
Proof.
  intros Hm Hc. unfold main_loads.
  rewrite run_bind. unfold connect_db.
  assert (H0 : idle w (run round_trip w)).
  { unfold run, round_trip. destruct (faults w) as [|[| |] fs]; simpl;
      first [apply idle_refl | apply idle_faults]. }
  destruct (outcome round_trip w); [|exact H0].
  set (w0 := run round_trip w) in *.
  rewrite run_bind. simpl outcome.
  set (w1 := run (print MsgConnected) w0).
  assert (H1 : idle w w1).
  { eapply idle_trans; [exact H0 | apply idle_print]. }
  assert (M1 : ckpt_mem w1 = Some c).
  { destruct H1 as (_ & E & _). rewrite E. exact Hm. }
  unfold load_papers, load_datasets, load_code_links, load_evaluation_tables.
  rewrite run_bind.
  destruct (batch_loader_complete Papers src_papers (paper_row lib)
              (progress_line Papers) (closing_line Papers) inserted
              default_batch_size w1 M1 (Hc Papers)) as [O2 I2].
  rewrite O2. set (w2 := run _ w1) in *.
  assert (M2 : ckpt_mem w2 = Some c).
  { destruct I2 as (_ & E & _). rewrite E. exact M1. }
  rewrite run_bind.
  destruct (batch_loader_complete Datasets src_datasets (dataset_row lib)
              (progress_line Datasets) (closing_line Datasets) inserted
              default_batch_size w2 M2 (Hc Datasets)) as [O3 I3].
  rewrite O3. set (w3 := run _ w2) in *.
  assert (M3 : ckpt_mem w3 = Some c).
  { destruct I3 as (_ & E & _). rewrite E. exact M2. }
  rewrite run_bind.
  destruct (batch_loader_complete Links src_links (link_row impl_conflict)
              (progress_line Links) (closing_line Links) inserted
              default_batch_size w3 M3 (Hc Links)) as [O4 I4].
  rewrite O4. set (w4 := run _ w3) in *.
  assert (M4 : ckpt_mem w4 = Some c).
  { destruct I4 as (_ & E & _). rewrite E. exact M3. }
  rewrite run_bind.
  destruct (batch_loader_complete Eval src_eval (eval_row lib)
              eval_progress_line eval_closing_line inserted_results
              default_batch_size w4 M4 (Hc Eval)) as [O5 I5].
  rewrite O5. unfold run at 1. simpl.
  eapply idle_trans; [exact H1|].
  eapply idle_trans; [exact I2|].
  eapply idle_trans; [exact I3|].
  eapply idle_trans; [exact I4 | exact I5].
Qed.

(** Started from a checkpoint in which every stream is complete, [main]
    takes up no row and leaves the tables alone. *)
Lemma main_complete lib impl_conflict args c w :
  clear_checkpoint_flag args = false -> data_dir_exists w = true ->
  ckpt_mem (at_try args w) = Some c -> all_complete c ->
  let w' := run (main lib impl_conflict args) w in
  db w' = db w /\ forall st, attempted st (log w') = attempted st (log w).
Proof.
  intros Hc Hd Hm Ha.
  destruct (at_try_spec args w) as (_ & _ & Edb & _ & _ & _ & _ & _ & Eatt).
  pose proof (main_loads_complete lib impl_conflict (at_try args w) Hm Ha)
    as (I1 & _ & _ & I4).
  assert (Hfin : forall counts w0,
            db (run (main_finish counts) w0) = db w0
            /\ forall st, attempted st (log (run (main_finish counts) w0))
                          = attempted st (log w0)).
  { intros counts w0. split.
    - destruct counts as [[[a b] c0] d].
      unfold run, main_finish, clear_checkpoint, bind, print, modify, get, emit.
      destruct w0 as [? f ? ? ? ? ? ? ? ? ?]. destruct f; reflexivity.
    - intro st. apply main_finish_quiet. }
  assert (Hexc : forall e w0,
            db (run (main_except e) w0) = db w0
            /\ forall st, attempted st (log (run (main_except e) w0))
                          = attempted st (log w0)).
  { intros e w0. split.
    - destruct e; reflexivity.
    - intro st. apply main_except_quiet. }
  simpl. unfold run at 1 2. rewrite (main_unfold lib impl_conflict args w Hc Hd).
  fold (run (try_except (main_try lib impl_conflict) (fun _ => true) main_except)
          (at_try args w)).
  rewrite run_try.
  assert (Htry : db (run (main_try lib impl_conflict) (at_try args w)) = db w
                 /\ forall st,
                      attempted st
                        (log (run (main_try lib impl_conflict) (at_try args w)))
                      = attempted st (log w)).
  { unfold main_try. rewrite run_bind.
    destruct (outcome (main_loads lib impl_conflict) (at_try args w)) as [counts|e].
    - destruct (Hfin counts (run (main_loads lib impl_conflict) (at_try args w)))
        as [F1 F2].
      split; [congruence|]. intro st. rewrite F2, I4. apply Eatt.
    - split; [congruence|]. intro st. rewrite I4. apply Eatt. }
  destruct Htry as [T1 T2].
  destruct (outcome (main_try lib impl_conflict) (at_try args w)) as [[]|e].
  - split; assumption.
  - simpl. destruct (Hexc e (run (main_try lib impl_conflict) (at_try args w)))
      as [X1 X2].
    split; [congruence|]. intro st. rewrite X2. apply T2.
Qed.

(** ** Accounting of a batch, stream by stream *)

Lemma progress_line_not_error st a b c : progress_line st a b c <> MsgRowError st.
Proof. discriminate. Qed.

Lemma eval_progress_line_not_error a b c :
  eval_progress_line a b c <> MsgRowError Eval.
Proof. discriminate. Qed.

Section ExactTally.

Variable st : stream.
Variable Row : Type.
Variable body : Row -> M unit.
Variable cnt : Counters -> nat.

Hypothesis body_tally :
  forall row w,
    wp (body row) w (fun r w' =>
      tallied cnt st w' <= S (tallied cnt st w)
      /\ (r = Ret tt -> tallied cnt st w' = S (tallied cnt st w))).

(** When every row moves the tally by one, a completed batch moves it by
    its number of rows. *)
Lemma batch_step_exact rows bs i w :
  outcome (batch_step st body (progress_line st) rows bs i) w = Ret tt ->
  tallied cnt st (run (batch_step st body (progress_line st) rows bs i) w)
  = tallied cnt st w + List.length (iloc i (i + bs) rows).
Proof.
  intro Ho.
  assert (HC : forall row w0,
            tallied cnt st (run (body row) w0) <= S (tallied cnt st w0)).
  { intros row w0. apply (body_tally row w0). }
  assert (HT : forall row w0, outcome (body row) w0 = Ret tt ->
            S (tallied cnt st w0) <= tallied cnt st (run (body row) w0)).
  { intros row w0 E. destruct (body_tally row w0) as [_ H].
    rewrite (H E). apply Nat.le_refl. }
  destruct (@batch_step_accounting st Row body (progress_line st)
              (tallied cnt st) (tallied cnt st)
              (@progress_line_not_error st)
              (@tallied_commit cnt st) (@tallied_commit cnt st)
              (@tallied_attempt cnt st st) (@tallied_attempt cnt st st)
              HC HT rows bs i w) as [H1 H2].
  specialize (H2 Ho). lia.
Qed.

End ExactTally.

Lemma eval_batch_accounting lib rows bs i w :
  let step := batch_step Eval (eval_row lib) eval_progress_line rows bs i in
  counted upserted_or_skipped (run step w)
  <= counted upserted_or_skipped w + List.length (iloc i (i + bs) rows)
  /\ (outcome step w = Ret tt ->
      tallied upserted_or_skipped Eval w + List.length (iloc i (i + bs) rows)
      <= tallied upserted_or_skipped Eval (run step w)).
Proof.
  apply (@batch_step_accounting Eval EvalRow (eval_row lib) eval_progress_line
           (counted upserted_or_skipped) (tallied upserted_or_skipped Eval)
           (@eval_progress_line_not_error)
           (@counted_commit upserted_or_skipped Eval)
           (@tallied_commit upserted_or_skipped Eval)
           (@counted_attempt upserted_or_skipped Eval)
           (@tallied_attempt upserted_or_skipped Eval Eval)).
  - intros row w0. apply (eval_row_tally lib row w0).
  - intros row w0 E. destruct (eval_row_tally lib row w0) as [_ H]. exact (H E).
Qed.

(** ** The end of a successful run *)

Lemma main_clears lib impl_conflict args w :
  clear_checkpoint_flag args = false -> data_dir_exists w = true ->
  outcome (main_try lib impl_conflict) (at_try args w) = Ret tt ->
  ckpt_file (run (main lib impl_conflict args) w) = None.
Proof.
  intros Hc Hd Ho. unfold run. rewrite (main_unfold lib impl_conflict args w Hc Hd).
  fold (run (try_except (main_try lib impl_conflict) (fun _ => true) main_except)
          (at_try args w)).
  rewrite run_try, Ho. apply main_try_clears, Ho.
Qed.

Lemma update_task_ids n d t l : map b_id (update_task n d t l) = map b_id l.
Proof.
  unfold update_task. rewrite map_map. apply map_ext.
  intro b. destruct (bench_key_eq n d b); reflexivity.
Qed.

Lemma update_task_hit n d t l b :
  find (bench_key_eq n d) l = Some b ->
  In (mkBenchRec (b_id b) (b_name b) (b_dataset_id b) t) (update_task n d t l).
Proof.
  intro H. apply find_some in H. destruct H as [Hin Hk].
  unfold update_task. apply in_map_iff. exists b. rewrite Hk. auto.
Qed.

Lemma eval_row_results_extended lib row w :
  results_extended w (run (eval_row lib row) w).
Proof.
  apply eval_row_respects;
    first [apply results_extended_refl | apply results_extended_trans | idtac].
  intros l Hl. apply results_extended_closed. eapply main_label_row, Hl.
Qed.

(** * The properties of the loader *)

(** ** Resume *)

(** C1. A papers loader that resumes from a checkpoint with
    [papers_offset = k] and [papers_complete = false] takes up the source
    rows [k, k+1, ...] in this order, each once, and no row below [k]: the
    rows taken up are [seq k m] for some [m <= len - k], and all of them
    ([m = len - k]) when the loader returns.  The same holds of the papers
    rows of a whole resumed run of [main]. *)
Theorem resumed_papers_run_starts_at_offset
    lib impl_conflict args bs rows cp w :
  src_papers w = Some rows -> papers_complete cp = false ->
  (0 < bs -> ckpt_mem w = Some cp ->
   exists m, m <= List.length rows - papers_offset cp
     /\ attempted Papers (log (run (load_papers lib bs) w)) =
        attempted Papers (log w) ++ seq (papers_offset cp) m
     /\ (forall v, outcome (load_papers lib bs) w = Ret v ->
         m = List.length rows - papers_offset cp))
  /\ (clear_checkpoint_flag args = false -> fresh args = false ->
      data_dir_exists w = true -> ckpt_file w = Some cp ->
      exists m, m <= List.length rows - papers_offset cp
        /\ attempted Papers (log (run (main lib impl_conflict args) w)) =
           attempted Papers (log w) ++ seq (papers_offset cp) m
        /\ (outcome (main_try lib impl_conflict) (at_try args w) = Ret tt ->
            m = List.length rows - papers_offset cp)).
Proof.
  intros Hs Hp. split.
  - intros Hbs Hm. exact (load_papers_attempts lib w Hbs Hs Hm Hp).
  - intros Hc Hf Hd Hfile.
    apply main_papers_attempts; auto.
    destruct (at_try_spec args w) as (E & _). rewrite E, Hf, Hfile. reflexivity.
Qed.

Lemma resumed_papers_run_starts_at_offset_witness :
  (exists m, m <= 3 - 1
     /\ attempted Papers (log (run (load_papers demo_lib 2) resume_world)) =
        [] ++ seq 1 m
     /\ (forall v, outcome (load_papers demo_lib 2) resume_world = Ret v ->
         m = 3 - 1))
  /\ (exists m, m <= 3 - 1
        /\ attempted Papers
             (log (run (main demo_lib no_conflict plain_args) resume_world)) =
           [] ++ seq 1 m
        /\ (outcome (main_try demo_lib no_conflict) (at_try plain_args resume_world)
            = Ret tt -> m = 3 - 1)).
Proof.
  destruct (@resumed_papers_run_starts_at_offset demo_lib no_conflict plain_args 2
              scenario_rows resume_checkpoint resume_world eq_refl eq_refl)
    as [H1 H2].
  split.
  - apply H1; [lia | reflexivity].
  - apply H2; reflexivity.
Defined.

(** ** Accounting *)

(** C2, as stated, fails.  A one-row papers batch whose INSERT the database
    rejects: the row ends in the [except Exception] branch, the batch is
    completed, and [inserted + skipped] is 0 for a batch of one row.  In the
    evaluation stream, without any failure, a row with dataset and task but
    no paper moves neither [inserted_results] nor [skipped]. *)
Lemma batch_tally_misses_rows :
  (let rows := [paper (Some "a1"%string) "P1"] in
   let step := batch_step Papers (paper_row demo_lib) (progress_line Papers)
                 rows 1000 0 in
   let w := set_ckpt_mem (Some fresh_checkpoint) (world_of rows [DbError]) in
   outcome step w = Ret tt
   /\ List.length (iloc 0 (0 + 1000) rows) = 1
   /\ inserted (counters (run step w)) + skipped (counters (run step w)) = 0)
  /\ (let rows := [eval_sample] in
      let step := batch_step Eval (eval_row demo_lib) eval_progress_line
                    rows 1000 0 in
      let w := world_of [] [] in
      outcome step w = Ret tt
      /\ List.length (iloc 0 (0 + 1000) rows) = 1
      /\ inserted_results (counters (run step w)) + skipped (counters (run step w)) = 0
      /\ inserted_benchmarks (counters (run step w)) = 1).
Proof. vm_compute. repeat split. Qed.

(** C2, amended.  For every batch a loader completes: in the papers,
    datasets and code-link streams every row is counted as inserted, counted
    as skipped, or reported as a row error, so [inserted + skipped] plus the
    row errors grows by the number of rows of the batch; in the evaluation
    stream [inserted_benchmarks + skipped] grows by at most the number of
    rows, and together with the row errors by at least that number. *)
Theorem batch_rows_accounted lib impl_conflict bs i w
    (ps : list PaperRow) (ds : list DatasetRow) (ls : list LinkRow)
    (es : list EvalRow) :
  (let step := batch_step Papers (paper_row lib) (progress_line Papers) ps bs i in
   outcome step w = Ret tt ->
   tallied loaded_or_skipped Papers (run step w)
   = tallied loaded_or_skipped Papers w + List.length (iloc i (i + bs) ps))
  /\ (let step := batch_step Datasets (dataset_row lib) (progress_line Datasets)
                    ds bs i in
      outcome step w = Ret tt ->
      tallied loaded_or_skipped Datasets (run step w)
      = tallied loaded_or_skipped Datasets w + List.length (iloc i (i + bs) ds))
  /\ (let step := batch_step Links (link_row impl_conflict) (progress_line Links)
                    ls bs i in
      outcome step w = Ret tt ->
      tallied loaded_or_skipped Links (run step w)
      = tallied loaded_or_skipped Links w + List.length (iloc i (i + bs) ls))
  /\ (let step := batch_step Eval (eval_row lib) eval_progress_line es bs i in
      counted upserted_or_skipped (run step w)
      <= counted upserted_or_skipped w + List.length (iloc i (i + bs) es)
      /\ (outcome step w = Ret tt ->
          tallied upserted_or_skipped Eval w + List.length (iloc i (i + bs) es)
          <= tallied upserted_or_skipped Eval (run step w))).
Proof.
  split; [|split; [|split]].
  - intros step Ho. apply batch_step_exact; [apply paper_row_tally | exact Ho].
  - intros step Ho. apply batch_step_exact; [apply dataset_row_tally | exact Ho].
  - intros step Ho. apply batch_step_exact; [apply link_row_tally | exact Ho].
  - apply eval_batch_accounting.
Qed.

Lemma batch_rows_accounted_witness :
  (let step := batch_step Papers (paper_row demo_lib) (progress_line Papers)
                 scenario_rows 1000 0 in
   tallied loaded_or_skipped Papers (run step scenario_world)
   = tallied loaded_or_skipped Papers scenario_world
     + List.length (iloc 0 (0 + 1000) scenario_rows))
  /\ (let step := batch_step Links (link_row no_conflict) (progress_line Links)
                    [orphan_link] 1000 0 in
      tallied loaded_or_skipped Links (run step scenario_world)
      = tallied loaded_or_skipped Links scenario_world
        + List.length (iloc 0 (0 + 1000) [orphan_link]))
  /\ (let step := batch_step Eval (eval_row demo_lib) eval_progress_line
                    [eval_sample] 1000 0 in
      tallied upserted_or_skipped Eval scenario_world
      + List.length (iloc 0 (0 + 1000) [eval_sample])
      <= tallied upserted_or_skipped Eval (run step scenario_world)).
Proof.
  destruct (@batch_rows_accounted demo_lib no_conflict 1000 0 scenario_world
              scenario_rows [] [orphan_link] [eval_sample])
    as (H1 & _ & H3 & _ & H5).
  split; [|split].
  - apply H1. reflexivity.
  - apply H3. reflexivity.
  - apply H5. reflexivity.
Defined.

(** ** Checkpoint lifecycle *)

(** C3, as stated, fails.  A first run over the three-row source completes:
    its last save has all four streams complete and the checkpoint file is
    deleted.  The next run then takes up the papers rows 0, 1 and 2 again. *)
Lemma rerun_after_clear_reloads :
  let first := run (main demo_lib no_conflict plain_args) (world_of scenario_rows []) in
  let second := run (main demo_lib no_conflict plain_args) first in
  In (EvSave done_checkpoint) (log first)
  /\ ckpt_file first = None
  /\ attempted Papers (log second) = attempted Papers (log first) ++ [0; 1; 2].
Proof. vm_compute. repeat split. auto 30. Qed.

(** C3, amended.  When the four loaders have returned, the orchestrator
    deletes the checkpoint file.  A run that finds no checkpoint file starts
    every stream from a fresh checkpoint and takes up the papers rows from
    row 0 again, all of them when its loaders return.  Only a run that
    starts from a checkpoint file in which all four streams are complete
    takes up no row and leaves the tables as they are. *)
Theorem checkpoint_cleared_then_fresh_start lib impl_conflict args w :
  clear_checkpoint_flag args = false -> data_dir_exists w = true ->
  (outcome (main_try lib impl_conflict) (at_try args w) = Ret tt ->
   ckpt_file (run (main lib impl_conflict args) w) = None)
  /\ (forall rows, ckpt_file w = None -> src_papers w = Some rows ->
      exists m, m <= List.length rows
        /\ attempted Papers (log (run (main lib impl_conflict args) w)) =
           attempted Papers (log w) ++ seq 0 m
        /\ (outcome (main_try lib impl_conflict) (at_try args w) = Ret tt ->
            m = List.length rows))
  /\ (forall c, fresh args = false -> ckpt_file w = Some c -> all_complete c ->
      db (run (main lib impl_conflict args) w) = db w
      /\ forall st,
           attempted st (log (run (main lib impl_conflict args) w))
           = attempted st (log w)).
Proof.
  intros Hc Hd. split; [|split].
  - apply main_clears; auto.
  - intros rows Hf Hs.
    destruct (at_try_spec args w) as (E & _).
    assert (Em : ckpt_mem (at_try args w) = Some fresh_checkpoint).
    { rewrite E, Hf. destruct (fresh args); reflexivity. }
    destruct (main_papers_attempts lib impl_conflict args w Hc Hd Hs Em eq_refl)
      as (m & H1 & H2 & H3).
    simpl in *. rewrite Nat.sub_0_r in *. exists m. auto.
  - intros c Hf Hfile Ha.
    apply (main_complete lib impl_conflict args (c := c)); auto.
    destruct (at_try_spec args w) as (E & _). rewrite E, Hf, Hfile. reflexivity.
Qed.

Lemma checkpoint_cleared_then_fresh_start_witness :
  let w := world_of scenario_rows [] in
  let w2 := set_ckpt_file (Some done_checkpoint) (world_of scenario_rows []) in
  ckpt_file (run (main demo_lib no_conflict plain_args) w) = None
  /\ (exists m, m <= List.length scenario_rows
        /\ attempted Papers (log (run (main demo_lib no_conflict plain_args) w)) =
           attempted Papers (log w) ++ seq 0 m
        /\ (outcome (main_try demo_lib no_conflict) (at_try plain_args w) = Ret tt ->
            m = List.length scenario_rows))
  /\ (db (run (main demo_lib no_conflict plain_args) w2) = db w2
      /\ forall st,
           attempted st (log (run (main demo_lib no_conflict plain_args) w2))
           = attempted st (log w2)).
Proof.
  intros w w2.
  destruct (@checkpoint_cleared_then_fresh_start demo_lib no_conflict plain_args w
              eq_refl eq_refl) as (H1 & H2 & _).
  destruct (@checkpoint_cleared_then_fresh_start demo_lib no_conflict plain_args w2
              eq_refl eq_refl) as (_ & _ & H3).
  split; [|split].
  - apply H1. reflexivity.
  - apply H2; reflexivity.
  - apply (H3 done_checkpoint); try reflexivity. intros []; reflexivity.
Defined.

(** C5, as stated, fails.  After the papers loader has gone through the
    three-row source with the default batch size, the persisted checkpoint
    holds [papers_offset = 1000], not 3. *)
Lemma saved_offset_not_capped :
  let w := run (load_papers demo_lib default_batch_size) scenario_world in
  List.length scenario_rows = 3
  /\ ckpt_file w = Some (mkCheckpoint 1000 0 0 0 true false false false).
Proof. vm_compute. split; reflexivity. Qed.

(** C5, amended.  After each committed batch that starts at row [i], the
    persisted offset of the stream is [i + batch_size], whatever the length
    of the source.  For the three-row papers source and the default batch
    size: one row inserted, two skipped, final persisted offset 1000 and
    [papers_complete = true]. *)
Theorem saved_offset_is_batch_end lib impl_conflict bs i c w
    (ps : list PaperRow) (ds : list DatasetRow) (ls : list LinkRow)
    (es : list EvalRow) :
  ckpt_mem w = Some c ->
  (let step := batch_step Papers (paper_row lib) (progress_line Papers) ps bs i in
   outcome step w = Ret tt ->
   ckpt_file (run step w) = Some (set_offset Papers (i + bs) c)
   /\ papers_offset (set_offset Papers (i + bs) c) = i + bs)
  /\ (let step := batch_step Datasets (dataset_row lib) (progress_line Datasets)
                    ds bs i in
      outcome step w = Ret tt ->
      ckpt_file (run step w) = Some (set_offset Datasets (i + bs) c)
      /\ datasets_offset (set_offset Datasets (i + bs) c) = i + bs)
  /\ (let step := batch_step Links (link_row impl_conflict) (progress_line Links)
                    ls bs i in
      outcome step w = Ret tt ->
      ckpt_file (run step w) = Some (set_offset Links (i + bs) c)
      /\ links_offset (set_offset Links (i + bs) c) = i + bs)
  /\ (let step := batch_step Eval (eval_row lib) eval_progress_line es bs i in
      outcome step w = Ret tt ->
      ckpt_file (run step w) = Some (set_offset Eval (i + bs) c)
      /\ eval_offset (set_offset Eval (i + bs) c) = i + bs)
  /\ (let w' := run (load_papers lib default_batch_size) scenario_world in
      outcome (load_papers lib default_batch_size) scenario_world = Ret 1
      /\ inserted (counters w') = 1 /\ skipped (counters w') = 2
      /\ ckpt_file w' = Some (mkCheckpoint 1000 0 0 0 true false false false)).
Proof.
  intro Hc. split; [|split; [|split; [|split]]].
  - intros step Ho. split; [|reflexivity].
    apply batch_step_checkpoint;
      first [apply paper_row_same_ckpt | exact Hc | exact Ho].
  - intros step Ho. split; [|reflexivity].
    apply batch_step_checkpoint;
      first [apply dataset_row_same_ckpt | exact Hc | exact Ho].
  - intros step Ho. split; [|reflexivity].
    apply batch_step_checkpoint;
      first [apply link_row_same_ckpt | exact Hc | exact Ho].
  - intros step Ho. split; [|reflexivity].
    apply batch_step_checkpoint;
      first [apply eval_row_same_ckpt | exact Hc | exact Ho].
  - vm_compute. auto.
Qed.

Lemma saved_offset_is_batch_end_witness :
  let step := batch_step Papers (paper_row demo_lib) (progress_line Papers)
                scenario_rows 2 0 in
  ckpt_file (run step scenario_world) = Some (set_offset Papers (0 + 2) fresh_checkpoint)
  /\ papers_offset (set_offset Papers (0 + 2) fresh_checkpoint) = 0 + 2.
Proof.
  destruct (@saved_offset_is_batch_end demo_lib no_conflict 2 0 fresh_checkpoint
              scenario_world scenario_rows [] [] [] eq_refl) as (H1 & _).
  apply H1. reflexivity.
Defined.

(** ** Keys and references *)

(** C4. A code-link row whose paper is not in the papers table never adds
    a row to the tables, and is counted as skipped once the lookup has gone
    through; and every row of the implementations table references a row of
    the papers table, after one link row as after a whole run. *)
Theorem links_without_paper_skipped lib impl_conflict args row w :
  (select_paper_id (lw_paper_arxiv_id row) (db w) = None ->
   db (run (link_row impl_conflict row) w) = db w
   /\ (calm 1 (faults w) = true ->
       outcome (link_row impl_conflict row) w = Ret tt
       /\ counters (run (link_row impl_conflict row) w) = incr_skipped (counters w)))
  /\ (impl_refs_valid (db w) ->
      impl_refs_valid (db (run (link_row impl_conflict row) w))
      /\ impl_refs_valid (db (run (main lib impl_conflict args) w))).
Proof.
  split.
  - intro H. split.
    + apply link_row_paper_absent_db, H.
    + intro Hc. apply link_row_paper_absent_skipped; assumption.
  - intro H. split.
    + apply link_row_keeps_impl_refs, H.
    + apply main_keeps_impl_refs, H.
Qed.

Lemma links_without_paper_skipped_witness :
  (db (run (link_row no_conflict orphan_link) scenario_world) = db scenario_world
   /\ outcome (link_row no_conflict orphan_link) scenario_world = Ret tt
   /\ counters (run (link_row no_conflict orphan_link) scenario_world)
      = incr_skipped (counters scenario_world))
  /\ impl_refs_valid
       (db (run (main demo_lib no_conflict plain_args) scenario_world)).
Proof.
  destruct (@links_without_paper_skipped demo_lib no_conflict plain_args
              orphan_link scenario_world) as [H1 H2].
  destruct (H1 eq_refl) as [H3 H4]. destruct (H4 eq_refl) as [H5 H6].
  split; [auto|]. apply H2. intros r [].
Defined.

(** C6. A papers row without arxiv_id is skipped and counted as skipped,
    without a statement sent to the database; and no row of the papers
    table has a null arxiv_id after a run, when none had before. *)
Theorem papers_without_key_skipped lib impl_conflict args row w :
  (pw_arxiv_id row = None ->
   outcome (paper_row lib row) w = Ret tt
   /\ run (paper_row lib row) w = set_counters (incr_skipped (counters w)) w)
  /\ (papers_keyed (db w) ->
      papers_keyed (db (run (main lib impl_conflict args) w))).
Proof.
  split.
  - apply paper_row_missing_key.
  - apply main_keeps_papers_keyed.
Qed.

Lemma papers_without_key_skipped_witness :
  (outcome (paper_row demo_lib (paper None "P2")) scenario_world = Ret tt
   /\ run (paper_row demo_lib (paper None "P2")) scenario_world
      = set_counters (incr_skipped (counters scenario_world)) scenario_world)
  /\ papers_keyed (db (run (main demo_lib no_conflict plain_args) scenario_world)).
Proof.
  destruct (@papers_without_key_skipped demo_lib no_conflict plain_args
              (paper None "P2") scenario_world) as [H1 H2].
  split.
  - apply H1. reflexivity.
  - apply H2. intros p [].
Defined.

(** ** Interruption *)

(** C7, as stated, fails.  Ctrl-C during the first INSERT, and a database
    error at the commit of the first batch: in both runs the [try] block of
    [main] raises, the resume notice is printed, the checkpoint file is not
    cleared, and the script ends with exit status 0. *)
Lemma aborted_run_exits_zero :
  (let w := set_ckpt_file (Some resume_checkpoint)
              (world_of scenario_rows [NoFault; Interrupt]) in
   let r := script (Some "postgresql://db"%string) demo_lib no_conflict plain_args w in
   outcome (main_try demo_lib no_conflict) (at_try plain_args w)
   = Raise KeyboardInterrupt
   /\ In (EvPrint MsgProgressSaved) (log (snd r))
   /\ ckpt_file (snd r) = Some resume_checkpoint
   /\ fst r = 0)
  /\ (let w := world_of scenario_rows [NoFault; NoFault; NoFault; DbError] in
      let r := script (Some "postgresql://db"%string) demo_lib no_conflict
                 plain_args w in
      outcome (main_try demo_lib no_conflict) (at_try plain_args w)
      = Raise DatabaseError
      /\ In (EvPrint MsgProgressSaved) (log (snd r))
      /\ fst r = 0).
Proof. vm_compute. repeat split; auto 30. Qed.

(** C7, amended.  When the [try] block of [main] is left by an exception -
    Ctrl-C or any other - [main] prints the resume notice, the checkpoint
    file is never cleared and stays as the last save left it, and the
    script returns normally: its exit status is 0. *)
Theorem aborted_run_keeps_checkpoint lib impl_conflict args url w e :
  cell_truthy (Some url) = true ->
  clear_checkpoint_flag args = false -> data_dir_exists w = true ->
  outcome (main_try lib impl_conflict) (at_try args w) = Raise e ->
  let r := script (Some url) lib impl_conflict args w in
  fst r = 0
  /\ exists l,
       log (snd r) = log (at_try args w) ++ l
       /\ In (EvPrint MsgProgressSaved) l
       /\ existsb is_clear l = false
       /\ ckpt_file (snd r) = file_after (ckpt_file (at_try args w)) l.
Proof.
  intros Hu Hc Hd He.
  destruct (main_aborted lib impl_conflict args w Hc Hd He) as [Ho Hl].
  unfold script. rewrite Hu. unfold outcome, run in Ho, Hl.
  destruct (main lib impl_conflict args w) as [r w']. simpl in *. subst r.
  simpl. split; [reflexivity | exact Hl].
Qed.

Lemma aborted_run_keeps_checkpoint_witness :
  let w := set_ckpt_file (Some resume_checkpoint)
             (world_of scenario_rows [NoFault; Interrupt]) in
  let r := script (Some "postgresql://db"%string) demo_lib no_conflict plain_args w in
  fst r = 0
  /\ exists l,
       log (snd r) = log (at_try plain_args w) ++ l
       /\ In (EvPrint MsgProgressSaved) l
       /\ existsb is_clear l = false
       /\ ckpt_file (snd r) = file_after (ckpt_file (at_try plain_args w)) l.
Proof.
  intros w r.
  apply (@aborted_run_keeps_checkpoint demo_lib no_conflict plain_args
           "postgresql://db"%string w KeyboardInterrupt); reflexivity.
Defined.

(** ** Evaluation tables *)

(** C8. When an evaluation row meets a benchmarks row with its (name,
    dataset) key, that row keeps its place and its id and gets the task of
    the new row.  A benchmark_results row with the same (paper, benchmark,
    metric) key makes the INSERT a no-op; the rows of benchmark_results
    that were there before a row, or a whole run, are still there unchanged
    after it. *)
Theorem benchmark_task_updated_result_kept lib impl_conflict args row w d t :
  (ew_dataset row = Some d -> ew_task row = Some t ->
   calm 2 (faults w) = true ->
   forall b,
     find (bench_key_eq (Some (benchmark_name d t))
             (select_dataset_id (Some d) (db w))) (benchmarks (db w)) = Some b ->
     let bs' := benchmarks (db (run (eval_row lib row) w)) in
     bs' = update_task (Some (benchmark_name d t))
             (select_dataset_id (Some d) (db w)) (Some t) (benchmarks (db w))
     /\ map b_id bs' = map b_id (benchmarks (db w))
     /\ In (mkBenchRec (b_id b) (b_name b) (b_dataset_id b) (Some t)) bs')
  /\ (forall s p bid m v,
        existsb (result_key_eq p bid m) (benchmark_results s) = true ->
        insert_result p bid m v s = (None, s))
  /\ results_extended w (run (eval_row lib row) w)
  /\ results_extended w (run (main lib impl_conflict args) w).
Proof.
  split; [|split; [|split]].
  - intros Hd Ht Hc b Hb.
    destruct (eval_row_benchmark lib row w Hd Ht Hc) as (E & _).
    destruct (upsert_benchmark_conflict (Some (benchmark_name d t))
                (select_dataset_id (Some d) (db w)) (Some t) (db w) Hb)
      as [_ Eu].
    simpl. rewrite E, Eu. split; [reflexivity|]. split.
    + apply update_task_ids.
    + apply update_task_hit, Hb.
  - intros s p bid m v. apply insert_result_conflict.
  - apply eval_row_results_extended.
  - apply main_results_extended.
Qed.

Lemma benchmark_task_updated_result_kept_witness :
  let bs' := benchmarks (db (run (eval_row demo_lib eval_sample) bench_world)) in
  bs' = [mkBenchRec 1 (Some "d1 - t1"%string) (Some 1) (Some "t1"%string)]
  /\ map b_id bs' = [1].
Proof.
  destruct (@benchmark_task_updated_result_kept demo_lib no_conflict plain_args
              eval_sample bench_world "d1"%string "t1"%string) as (H & _).
  destruct (H eq_refl eq_refl eq_refl
              (mkBenchRec 1 (Some "d1 - t1"%string) (Some 1) (Some "old"%string))
              eq_refl) as (H1 & H2 & _).
  split; [exact H1 | exact H2].
Defined.

(** C10. An evaluation row with a dataset name and a task is never
    skipped: [inserted_benchmarks] goes up by one and [skipped] stays,
    whether the upsert adds a row or hits an existing one.  When no
    datasets row has the name, a benchmarks row with a null dataset
    reference is added. *)
Theorem unknown_dataset_still_upserts_benchmark lib row w d t :
  ew_dataset row = Some d -> ew_task row = Some t ->
  calm 2 (faults w) = true ->
  let w' := run (eval_row lib row) w in
  (inserted_benchmarks (counters w') = S (inserted_benchmarks (counters w))
   /\ skipped (counters w') = skipped (counters w))
  /\ (select_dataset_id (Some d) (db w) = None ->
      benchmarks (db w') =
      benchmarks (db w)
        ++ [mkBenchRec (fresh_id (map b_id (benchmarks (db w))))
              (Some (benchmark_name d t)) None (Some t)])
  /\ (forall b,
        find (bench_key_eq (Some (benchmark_name d t))
                (select_dataset_id (Some d) (db w))) (benchmarks (db w)) = Some b ->
        List.length (benchmarks (db w')) = List.length (benchmarks (db w))
        /\ inserted_benchmarks (counters w') = S (inserted_benchmarks (counters w))).
Proof.
  intros Hd Ht Hc.
  destruct (eval_row_benchmark lib row w Hd Ht Hc) as (E & Ei & Es & _).
  simpl. split; [auto|]. split.
  - intro Hn. rewrite E, Hn. apply upsert_benchmark_null.
  - intros b Hb.
    destruct (upsert_benchmark_conflict (Some (benchmark_name d t))
                (select_dataset_id (Some d) (db w)) (Some t) (db w) Hb)
      as [_ Eu].
    split; [|exact Ei].
    rewrite E, Eu. unfold update_task. apply length_map.
Qed.

Lemma unknown_dataset_still_upserts_benchmark_witness :
  let w := world_of [] [] in
  let w' := run (eval_row demo_lib eval_sample) w in
  (inserted_benchmarks (counters w') = 1 /\ skipped (counters w') = 0)
  /\ benchmarks (db w') =
     [mkBenchRec 1 (Some "d1 - t1"%string) None (Some "t1"%string)].
Proof.
  intros w w'.
  destruct (@unknown_dataset_still_upserts_benchmark demo_lib eval_sample w
              "d1"%string "t1"%string eq_refl eq_refl eq_refl) as (H1 & H2 & _).
  split; [exact H1 | exact (H2 eq_refl)].
Defined.

(** ** Missing source files *)

(** C9. A loader whose parquet file does not exist prints its notice and
    returns 0: it raises nothing, and the checkpoint dict, the checkpoint
    file and the tables are left as they are.  What follows the loader in
    [main] then runs with the count 0, and when the [try] block of [main]
    ends without an exception the checkpoint file is deleted. *)
Theorem missing_source_returns_zero lib impl_conflict args bs w :
  (src_papers w = None ->
   load_papers lib bs w = (Ret 0, missing_file_notice Papers w)
   /\ forall B (k : nat -> M B),
        bind (load_papers lib bs) k w = k 0 (missing_file_notice Papers w))
  /\ (src_datasets w = None ->
      load_datasets lib bs w = (Ret 0, missing_file_notice Datasets w)
      /\ forall B (k : nat -> M B),
           bind (load_datasets lib bs) k w = k 0 (missing_file_notice Datasets w))
  /\ (src_links w = None ->
      load_code_links impl_conflict bs w = (Ret 0, missing_file_notice Links w)
      /\ forall B (k : nat -> M B),
           bind (load_code_links impl_conflict bs) k w
           = k 0 (missing_file_notice Links w))
  /\ (src_eval w = None ->
      load_evaluation_tables lib bs w = (Ret 0, missing_file_notice Eval w)
      /\ forall B (k : nat -> M B),
           bind (load_evaluation_tables lib bs) k w
           = k 0 (missing_file_notice Eval w))
  /\ (forall st,
        ckpt_mem (missing_file_notice st w) = ckpt_mem w
        /\ ckpt_file (missing_file_notice st w) = ckpt_file w
        /\ db (missing_file_notice st w) = db w)
  /\ (clear_checkpoint_flag args = false -> data_dir_exists w = true ->
      outcome (main_try lib impl_conflict) (at_try args w) = Ret tt ->
      ckpt_file (run (main lib impl_conflict args) w) = None).
Proof.
  split; [|split; [|split; [|split; [|split]]]].
  - intro H. split; [apply batch_loader_missing, H|].
    intros B k. apply bind_missing, H.
  - intro H. split; [apply batch_loader_missing, H|].
    intros B k. apply bind_missing, H.
  - intro H. split; [apply batch_loader_missing, H|].
    intros B k. apply bind_missing, H.
  - intro H. split; [apply batch_loader_missing, H|].
    intros B k. apply bind_missing, H.
  - intro st. repeat split.
  - apply main_clears.
Qed.

Lemma missing_source_returns_zero_witness :
  let w := mkWorld true (Some resume_checkpoint) None None None None
             empty_store [] None zero_counters [] in
  load_papers demo_lib 1000 w = (Ret 0, missing_file_notice Papers w)
  /\ load_datasets demo_lib 1000 w = (Ret 0, missing_file_notice Datasets w)
  /\ load_code_links no_conflict 1000 w = (Ret 0, missing_file_notice Links w)
  /\ load_evaluation_tables demo_lib 1000 w = (Ret 0, missing_file_notice Eval w)
  /\ ckpt_file (run (main demo_lib no_conflict plain_args) w) = None.
Proof.
  intro w.
  destruct (@missing_source_returns_zero demo_lib no_conflict plain_args 1000 w)
    as (H1 & H2 & H3 & H4 & _ & H6).
  split; [apply (H1 eq_refl)|].
  split; [apply (H2 eq_refl)|].
  split; [apply (H3 eq_refl)|].
  split; [apply (H4 eq_refl)|].
  apply H6; reflexivity.
Defined.

(** * Further properties of the loader *)

(** ** Checkpoint store *)


(** ** Exit status and run modes *)



(** X3. With [--clear-checkpoint] nothing is loaded: the checkpoint file
    is gone afterwards, and the database is not even connected to - the
    tables, the pending faults and the rows taken up are as before. *)
Theorem clear_checkpoint_mode lib impl_conflict args w :
  clear_checkpoint_flag args = true ->
  let w' := run (main lib impl_conflict args) w in
  ckpt_file w' = None
  /\ db w' = db w /\ faults w' = faults w /\ ckpt_mem w' = ckpt_mem w
  /\ forall st, attempted st (log w') = attempted st (log w).
Proof.
  intro Hc. unfold run, main, clear_checkpoint, bind, get, print, modify, emit.
  rewrite Hc. destruct w as [? f ? ? ? ? ? ? ? ? lg].
  destruct f; simpl; repeat split; auto; intro st;
    rewrite !attempted_app; simpl; rewrite ?app_nil_r; reflexivity.
Qed.

Lemma clear_checkpoint_mode_witness :
  let w := set_ckpt_file (Some resume_checkpoint) (world_of scenario_rows [DbError]) in
  let w' := run (main demo_lib no_conflict (mkArgs true false true)) w in
  ckpt_file w' = None
  /\ db w' = db w /\ faults w' = faults w /\ ckpt_mem w' = ckpt_mem w
  /\ forall st, attempted st (log w') = attempted st (log w).
Proof.
  intros w w'.
  apply (@clear_checkpoint_mode demo_lib no_conflict (mkArgs true false true) w).
  reflexivity.
Defined.

(** X4. Without the data directory [main] prints two lines and returns:
    no checkpoint is read or cleared (not even with [--fresh]) and the
    database is not connected to. *)
Theorem missing_data_dir_does_nothing lib impl_conflict args w :
  clear_checkpoint_flag args = false -> data_dir_exists w = false ->
  main lib impl_conflict args w
  = (Ret tt, add_event (EvPrint MsgDataDirNotFound) (add_event (EvPrint MsgBanner) w)).
Proof.
  intros Hc Hd. unfold main, bind, get, print, modify. rewrite Hc. simpl.
  rewrite Hd. reflexivity.
Qed.

Lemma missing_data_dir_does_nothing_witness :
  let w := mkWorld false (Some resume_checkpoint) None None None None
             empty_store [] None zero_counters [] in
  main demo_lib no_conflict (mkArgs true false false) w
  = (Ret tt, add_event (EvPrint MsgDataDirNotFound) (add_event (EvPrint MsgBanner) w)).
Proof.
  intro w.
  apply (@missing_data_dir_does_nothing demo_lib no_conflict
           (mkArgs true false false) w); reflexivity.
Defined.

(** X5. [--fresh] discards the checkpoint: the file is cleared before the
    loaders start and the papers rows are taken up from row 0, whatever
    offset or completion flag the old checkpoint held. *)
Theorem fresh_run_starts_at_zero lib impl_conflict args rows w :
  fresh args = true -> clear_checkpoint_flag args = false ->
  data_dir_exists w = true -> src_papers w = Some rows ->
  ckpt_file (at_try args w) = None
  /\ ckpt_mem (at_try args w) = Some fresh_checkpoint
  /\ exists m, m <= List.length rows
       /\ attempted Papers (log (run (main lib impl_conflict args) w)) =
          attempted Papers (log w) ++ seq 0 m
       /\ (outcome (main_try lib impl_conflict) (at_try args w) = Ret tt ->
           m = List.length rows).
Proof.
  intros Hf Hc Hd Hs.
  destruct (at_try_spec args w) as (Em & Ef & _). rewrite Hf in Em, Ef.
  split; [exact Ef|]. split; [exact Em|].
  destruct (main_papers_attempts lib impl_conflict args w Hc Hd Hs Em eq_refl)
    as (m & H1 & H2 & H3).
  simpl in *. rewrite Nat.sub_0_r in *. exists m. auto.
Qed.

Lemma fresh_run_starts_at_zero_witness :
  let w := set_ckpt_file (Some done_checkpoint) (world_of scenario_rows []) in
  let args := mkArgs true false false in
  ckpt_file (at_try args w) = None
  /\ ckpt_mem (at_try args w) = Some fresh_checkpoint
  /\ exists m, m <= List.length scenario_rows
       /\ attempted Papers (log (run (main demo_lib no_conflict args) w)) =
          attempted Papers (log w) ++ seq 0 m
       /\ (outcome (main_try demo_lib no_conflict) (at_try args w) = Ret tt ->
           m = List.length scenario_rows).
Proof.
  intros w args.
  apply (@fresh_run_starts_at_zero demo_lib no_conflict args scenario_rows w);
    reflexivity.
Defined.

(** X6. When the connection to the database cannot be opened, no loader
    runs: no row is taken up, the tables are as before, the checkpoint file
    is as the start of the run left it, and the resume notice is printed. *)
Theorem failed_connection_loads_nothing lib impl_conflict args fs w :
  clear_checkpoint_flag args = false -> data_dir_exists w = true ->
  faults w = DbError :: fs ->
  let w' := run (main lib impl_conflict args) w in
  db w' = db w
  /\ faults w' = fs
  /\ ckpt_file w' = (if fresh args then None else ckpt_file w)
  /\ (forall st, attempted st (log w') = attempted st (log w))
  /\ log w' = log (at_try args w)
              ++ [EvPrint MsgError; EvPrint MsgProgressSaved; EvPrint MsgTraceback].
Proof.
  intros Hc Hd Hf.
  destruct (at_try_spec args w) as (_ & Ef & Edb & Efs & _ & _ & _ & _ & Ea).
  simpl. unfold run. rewrite (main_unfold lib impl_conflict args w Hc Hd).
  rewrite Hf in Efs.
  unfold try_except, main_try, main_loads, connect_db, bind, round_trip.
  rewrite Efs. simpl. rewrite Edb, Ef.
  split; [reflexivity|]. split; [reflexivity|]. split; [reflexivity|]. split.
  - intro st. rewrite !attempted_app. simpl. rewrite !app_nil_r. apply Ea.
  - rewrite <- !app_assoc. reflexivity.
Qed.

Lemma failed_connection_loads_nothing_witness :
  let w := set_ckpt_file (Some resume_checkpoint) (world_of scenario_rows [DbError]) in
  let w' := run (main demo_lib no_conflict plain_args) w in
  db w' = db w
  /\ faults w' = []
  /\ ckpt_file w' = ckpt_file w
  /\ (forall st, attempted st (log w') = attempted st (log w))
  /\ log w' = log (at_try plain_args w)
              ++ [EvPrint MsgError; EvPrint MsgProgressSaved; EvPrint MsgTraceback].
Proof.
  intros w w'.
  apply (@failed_connection_loads_nothing demo_lib no_conflict plain_args [] w);
    reflexivity.
Defined.

(** ** Batches *)

Lemma map_snd_combine_seq {A} (l : list A) i n :
  List.length l <= n -> map snd (combine (seq i n) l) = l.
Proof.
  revert i n. induction l as [|a t IH]; intros i n H.
  - destruct (seq i n); reflexivity.
  - destruct n as [|n]; simpl in *; [lia|]. rewrite IH by lia. reflexivity.
Qed.

Lemma iloc_rows {A} (rows : list A) i bs :
  map snd (iloc i (i + bs) rows) = firstn bs (skipn i rows).
Proof.
  unfold iloc. replace (i + bs - i) with bs by lia.
  apply map_snd_combine_seq. rewrite length_firstn. apply Nat.le_min_l.
Qed.

Lemma nth_error_of_firstn {A} n (l : list A) m x :
  nth_error (firstn n l) m = Some x -> nth_error l m = Some x.
Proof.
  revert l m. induction n as [|n IH]; intros l m H.
  - destruct m; discriminate.
  - destruct l as [|a t]; [destruct m; discriminate|].
    destruct m as [|m]; simpl in *; auto.
Qed.

Lemma combine_seq_position {A} (l : list A) ix row :
  forall i n,
    In (ix, row) (combine (seq i n) l) ->
    i <= ix /\ nth_error l (ix - i) = Some row.
Proof.
  induction l as [|a t IH]; intros i n Hin.
  - destruct (seq i n); contradiction.
  - destruct n as [|n]; simpl in Hin; [contradiction|].
    destruct Hin as [E|Hin].
    + injection E as <- <-. rewrite Nat.sub_diag. auto.
    + destruct (IH (S i) n Hin) as [Hle Hn]. split; [lia|].
      replace (ix - i) with (S (ix - S i)) by lia. exact Hn.
Qed.

Lemma iloc_position {A} (rows : list A) i j ix row :
  In (ix, row) (iloc i j rows) -> nth_error rows ix = Some row.
Proof.
  unfold iloc. intro Hin.
  destruct (combine_seq_position _ _ _ _ _ Hin) as [Hle Hn].
  apply nth_error_of_firstn in Hn.
  rewrite nth_error_skipn in Hn. replace (i + (ix - i)) with ix in Hn by lia.
  exact Hn.
Qed.

Lemma batches_from {A} (rows : list A) bs fuel :
  0 < bs ->
  forall k, List.length rows - k <= fuel ->
  flat_map (fun i => map snd (iloc i (i + bs) rows))
    (range_from fuel k (List.length rows) bs)
  = skipn k rows.
Proof.
  intro Hbs. induction fuel as [|f IH]; intros k Hf; simpl.
  - symmetry. apply skipn_all2. lia.
  - destruct (k <? List.length rows) eqn:E.
    + simpl. rewrite IH by lia. rewrite iloc_rows.
      rewrite <- (firstn_skipn bs (skipn k rows)) at 2.
      f_equal. rewrite skipn_skipn. f_equal. lia.
    + apply Nat.ltb_ge in E. symmetry. apply skipn_all2. exact E.
Qed.

(** X7. The batches of a loader cut the source from the resume offset on
    into consecutive pieces of at most [batch_size] rows: put together in
    order they are exactly the rows from the offset on, and every row comes
    with its own position in the source. *)
Theorem batches_partition_rows {A} (rows : list A) k bs :
  0 < bs ->
  flat_map (fun i => map snd (iloc i (i + bs) rows))
    (py_range k (List.length rows) bs)
  = skipn k rows
  /\ (forall i, List.length (iloc i (i + bs) rows) <= bs)
  /\ (forall i ix row,
        In (ix, row) (iloc i (i + bs) rows) -> nth_error rows ix = Some row).
Proof.
  intro Hbs. split; [|split].
  - apply batches_from; [exact Hbs | lia].
  - intro i. rewrite iloc_length. apply Nat.le_min_l.
  - intros i ix row. apply iloc_position.
Qed.

Lemma batches_partition_rows_witness :
  flat_map (fun i => map snd (iloc i (i + 2) scenario_rows))
    (py_range 1 (List.length scenario_rows) 2)
  = skipn 1 scenario_rows.
Proof.
  apply (@batches_partition_rows PaperRow scenario_rows 1 2). lia.
Defined.

(** ** Rows that cannot be loaded *)






(** ** Insert and lookup *)


Lemma find_some_existsb {A} (f : A -> bool) l x :
  find f l = Some x -> existsb f l = true.
Proof.
  induction l as [|a t IH]; simpl; [discriminate|].
  destruct (f a); auto.
Qed.





Lemma insert_paper_duplicate t a k u p d au s id :
  select_paper_id k s = Some id -> insert_paper t a k u p d au s = (None, s).
Proof.
  unfold select_paper_id. intro H.
  destruct (find _ (papers s)) as [x|] eqn:E; [|discriminate].
  apply find_some_existsb in E. unfold insert_paper. rewrite E. reflexivity.
Qed.






(** X11. A papers row whose arxiv id is already in the papers table leaves
    every table as it is, whatever the database does, and is counted as
    skipped when its INSERT goes through. *)
Theorem duplicate_paper_skipped lib row k id w :
  pw_arxiv_id row = Some k ->
  select_paper_id (Some k) (db w) = Some id ->
  db (run (paper_row lib row) w) = db w
  /\ (calm 1 (faults w) = true ->
      outcome (paper_row lib row) w = Ret tt
      /\ counters (run (paper_row lib row) w) = incr_skipped (counters w)).
Proof.
  intros Hk Hs. split.
  - change (wp (paper_row lib row) w (fun _ w' => db w' = db w)).
    unfold paper_row, try_except_Exception. rewrite Hk.
    apply wp_try, wp_bind, wp_execute; intro fs.
    + erewrite insert_paper_duplicate by exact Hs. simpl.
      apply wp_modify. destruct w; reflexivity.
    + simpl. apply wp_modify. reflexivity.
    + reflexivity.
  - intro Hc.
    change (wp (paper_row lib row) w (fun r w' =>
              r = Ret tt /\ counters w' = incr_skipped (counters w))).
    unfold paper_row, try_except_Exception. rewrite Hk.
    apply wp_try, wp_bind. eapply wp_execute_calm; [exact Hc|]. intros fs _.
    erewrite insert_paper_duplicate by exact Hs. simpl.
    apply wp_modify. split; reflexivity.
Qed.

Lemma duplicate_paper_skipped_witness :
  let w := run (paper_row demo_lib (paper (Some "a1"%string) "P1")) scenario_world in
  let row := paper (Some "a1"%string) "P1-dup" in
  db (run (paper_row demo_lib row) w) = db w
  /\ outcome (paper_row demo_lib row) w = Ret tt
  /\ counters (run (paper_row demo_lib row) w) = incr_skipped (counters w).
Proof.
  intros w row.
  destruct (@duplicate_paper_skipped demo_lib row "a1"%string 1 w eq_refl eq_refl)
    as [H1 H2].
  split; [exact H1 | apply H2; reflexivity].
Defined.



(** X13. A code-link row with a repository URL whose paper is in the papers
    table, when its two statements go through: the implementations row it
    offers carries the id of the first papers row with that arxiv id, the
    URL, the framework, and [is_official] (False when the column is
    absent); it is counted as inserted when the table takes it and as
    skipped when a uniqueness constraint of the table rejects it. *)
Theorem link_row_uses_found_paper impl_conflict row a pid w :
  cell_truthy (lw_repo_url row) = true ->
  lw_paper_arxiv_id row = Some a ->
  select_paper_id (Some a) (db w) = Some pid ->
  calm 2 (faults w) = true ->
  let w' := run (link_row impl_conflict row) w in
  let official := match lw_is_official row with
                  | OfficialAbsent => Some false
                  | OfficialNull => None
                  | OfficialBool b => Some b
                  end in
  let ins := insert_implementation impl_conflict (Some pid) (lw_repo_url row)
               (lw_framework row) official (db w) in
  outcome (link_row impl_conflict row) w = Ret tt
  /\ db w' = snd ins
  /\ counters w' = match fst ins with
                    | Some _ => incr_inserted (counters w)
                    | None => incr_skipped (counters w)
                    end
  /\ (existsb (fun old =>
                 impl_conflict old
                   (mkImplRec (fresh_id (map i_id (implementations (db w))))
                      (Some pid) (lw_repo_url row) (lw_framework row) official))
        (implementations (db w)) = false ->
      implementations (db w') =
      implementations (db w)
        ++ [mkImplRec (fresh_id (map i_id (implementations (db w)))) (Some pid)
              (lw_repo_url row) (lw_framework row) official]).
Proof.
  intros Hu Ha Hs Hc. simpl.
  set (official := match lw_is_official row with
                   | OfficialAbsent => Some false
                   | OfficialNull => None
                   | OfficialBool b => Some b
                   end).
  set (ins := insert_implementation impl_conflict (Some pid) (lw_repo_url row)
                (lw_framework row) official (db w)).
  change (wp (link_row impl_conflict row) w (fun r w' =>
    r = Ret tt
    /\ db w' = snd ins
    /\ counters w' = match fst ins with
                      | Some _ => incr_inserted (counters w)
                      | None => incr_skipped (counters w)
                      end
    /\ (existsb (fun old =>
                   impl_conflict old
                     (mkImplRec (fresh_id (map i_id (implementations (db w))))
                        (Some pid) (lw_repo_url row) (lw_framework row) official))
          (implementations (db w)) = false ->
        implementations (db w') =
        implementations (db w)
          ++ [mkImplRec (fresh_id (map i_id (implementations (db w)))) (Some pid)
                (lw_repo_url row) (lw_framework row) official]))).
  unfold link_row, try_except_Exception. rewrite Hu, Ha. simpl negb. cbv iota.
  apply wp_try, wp_bind. eapply wp_query_calm; [exact Hc|]. intros fs1 H1.
  rewrite Hs. apply wp_bind. eapply wp_execute_calm; [exact H1|]. intros fs2 _.
  change (db (set_faults fs1 w)) with (db w).
  fold official. fold ins.
  assert (Hx : existsb (fun old =>
                   impl_conflict old
                     (mkImplRec (fresh_id (map i_id (implementations (db w))))
                        (Some pid) (lw_repo_url row) (lw_framework row) official))
                 (implementations (db w)) = false ->
               implementations (snd ins) =
               implementations (db w)
                 ++ [mkImplRec (fresh_id (map i_id (implementations (db w))))
                       (Some pid) (lw_repo_url row) (lw_framework row) official]).
  { intro E. subst ins. unfold insert_implementation. rewrite E. reflexivity. }
  destruct (fst ins) as [id|]; apply wp_modify; simpl; auto.
Qed.

Lemma link_row_uses_found_paper_witness :
  let w := run (paper_row demo_lib (paper (Some "zz"%string) "Z")) scenario_world in
  implementations (db (run (link_row no_conflict orphan_link) w)) =
  [mkImplRec 1 (Some 1) (Some "https://github.com/o/r"%string) None (Some false)].
Proof.
  intro w.
  destruct (@link_row_uses_found_paper no_conflict orphan_link "zz"%string 1 w
              eq_refl eq_refl eq_refl eq_refl) as (_ & _ & _ & H).
  apply H. reflexivity.
Defined.

(** ** Uniqueness of the natural keys *)

Lemma named_app {A} (l1 l2 : list (option A)) :
  named (l1 ++ l2) = named l1 ++ named l2.
Proof. unfold named. apply flat_map_app. Qed.

Lemma existsb_key_absent {A} (key : A -> option string) l k :
  existsb (fun x => sql_eq String.eqb (key x) (Some k)) l = false ->
  ~ In k (named (map key l)).
Proof.
  induction l as [|x t IH]; simpl; [tauto|].
  intro H. apply orb_false_iff in H. destruct H as [H1 H2].
  intro Hin. apply in_app_or in Hin. destruct Hin as [Hin|Hin].
  - destruct (key x) as [y|]; simpl in *; [|tauto].
    destruct Hin as [<-|[]]. rewrite String.eqb_refl in H1. discriminate.
  - apply (IH H2 Hin).
Qed.

Lemma nodup_snoc {A} (l : list A) x : NoDup l -> ~ In x l -> NoDup (l ++ [x]).
Proof.
  intros Hl Hx. apply NoDup_app; [exact Hl | repeat constructor; intros [] | ].
  intros a Ha [<-|[]]. exact (Hx Ha).
Qed.

Lemma insert_paper_unique t a k u p d au s :
  papers_unique s -> papers_unique (snd (insert_paper t a k u p d au s)).
Proof.
  unfold papers_unique, insert_paper. intro H.
  destruct (existsb _ (papers s)) eqn:E; simpl; [exact H|].
  rewrite map_app, named_app. simpl.
  destruct k as [k|]; simpl; [|rewrite app_nil_r; exact H].
  apply nodup_snoc; [exact H|].
  apply (existsb_key_absent p_arxiv_id _ _ E).
Qed.

Lemma insert_dataset_unique n de mo h pu s :
  datasets_unique s -> datasets_unique (snd (insert_dataset n de mo h pu s)).
Proof.
  unfold datasets_unique, insert_dataset. intro H.
  destruct (existsb _ (datasets s)) eqn:E; simpl; [exact H|].
  rewrite map_app, named_app. simpl.
  destruct n as [n|]; simpl; [|rewrite app_nil_r; exact H].
  apply nodup_snoc; [exact H|].
  apply (existsb_key_absent d_name _ _ E).
Qed.

Lemma keeps_unique_closed : closed_on keeps_unique main_label.
Proof.
  intros l _ w w' Hp. unfold keeps_unique.
  destruct Hp; simpl; auto.
  - split; [apply insert_paper_unique|].
    destruct (insert_paper_tables title abstract (Some key) url pdf published
                authors (db w)) as (_ & E & _).
    unfold datasets_unique. rewrite E. auto.
  - split; [|apply insert_dataset_unique].
    destruct (insert_dataset_tables name description modalities homepage
                paper_url (db w)) as [E _].
    unfold papers_unique. rewrite E. auto.
  - destruct (insert_implementation_tables impl_conflict (Some paper_id)
                github_url framework official (db w)) as (_ & E1 & E2 & _).
    unfold papers_unique, datasets_unique. rewrite E1, E2. auto.
  - destruct (upsert_benchmark_tables (Some name) dataset_id (Some task) (db w))
      as (E1 & E2 & _).
    unfold papers_unique, datasets_unique. rewrite E1, E2. auto.
  - destruct (insert_result_tables paper_id (Some benchmark_id) metric_name
                (Some x) (db w)) as (_ & E1 & E2 & _).
    unfold papers_unique, datasets_unique. rewrite E1, E2. auto.
Qed.

(** X14. Whatever the faults and the checkpoint, a run of [main] never
    stores a second papers row with an arxiv id that is in the table, nor a
    second datasets row with a name that is in the table: when the non-null
    arxiv ids (the non-null dataset names) are pairwise different before the
    run, they are so after it. *)
Theorem run_keeps_natural_keys_unique lib impl_conflict args w :
  (papers_unique (db w) ->
   papers_unique (db (run (main lib impl_conflict args) w)))
  /\ (datasets_unique (db w) ->
      datasets_unique (db (run (main lib impl_conflict args) w))).
Proof.
  apply (main_respects (R := keeps_unique)).
  - intros ?. split; auto.
  - intros a b c [H1 H2] [H3 H4]. split; auto.
  - apply keeps_unique_closed.
Qed.

Lemma run_keeps_natural_keys_unique_witness :
  papers_unique (db (run (main demo_lib no_conflict plain_args)
                       (world_of scenario_rows []))).
Proof.
  apply (run_keeps_natural_keys_unique demo_lib no_conflict plain_args
           (world_of scenario_rows [])).
  vm_compute. constructor.
Defined.

(** ** Commit before checkpoint *)

Lemma commits_app l1 l2 : commits (l1 ++ l2) = commits l1 + commits l2.
Proof.
  induction l1 as [|e t IH]; simpl; auto. destruct e; simpl; auto.
Qed.

Lemma commits_step l w w' :
  l <> LCommit -> prim l w w' -> commits (log w') = commits (log w).
Proof.
  intros Hl Hp. destruct Hp; simpl; auto;
    try (rewrite commits_app; simpl; lia).
  congruence.
Qed.

Lemma commits_row st :
  closed_on (same_measure (fun w => commits (log w))) (row_label st).
Proof.
  intros l Hl w w' Hp. apply (commits_step (l := l)); [|exact Hp].
  intros ->. exact Hl.
Qed.

Section CommitThenSave.

Variable st : stream.
Variable Row : Type.
Variable body : Row -> M unit.
Variable progress : nat -> nat -> Counters -> Msg.
Hypothesis body_ckpt : forall row, respects same_ckpt (body row).
Hypothesis body_commits :
  forall row, respects (same_measure (fun w => commits (log w))) (body row).

Lemma batch_step_commit_then_save (rows : list Row) bs i w :
  commit_then_save (batch_step st body progress rows bs i) w.
Proof.
  unfold commit_then_save, batch_step. rewrite run_bind, outcome_bind.
  assert (Hf : same_ckpt w (run (batch_rows st body rows bs i) w)).
  { apply (batch_rows_respects same_ckpt_refl same_ckpt_trans); auto.
    intro ix. apply same_ckpt_attempt. }
  assert (Hc : same_measure (fun w => commits (log w)) w
                 (run (batch_rows st body rows bs i) w)).
  { apply (batch_rows_respects (@same_measure_refl _) (@same_measure_trans _));
      auto.
    intros ix w0 w1 Hp. apply (commits_step (l := LAttempt st ix));
      [discriminate | exact Hp]. }
  unfold same_measure in Hc.
  destruct (outcome (batch_rows st body rows bs i) w) as [[]|e]; [|auto].
  set (w1 := run (batch_rows st body rows bs i) w) in *.
  unfold outcome, run, batch_commit, commit, bind, round_trip, get,
    save_checkpoint, bind, emit, print, modify, ret.
  destruct (faults w1) as [|[| |] fs]; simpl;
    try (destruct (ckpt_mem w1); simpl; rewrite ?commits_app; simpl; lia);
    (split; [exact Hf | exact Hc]).
Qed.

End CommitThenSave.

Lemma paper_row_commits lib row :
  respects (same_measure (fun w => commits (log w))) (paper_row lib row).
Proof.
  apply paper_row_respects;
    first [apply same_measure_refl | apply same_measure_trans | apply commits_row].
Qed.

Lemma dataset_row_commits lib row :
  respects (same_measure (fun w => commits (log w))) (dataset_row lib row).
Proof.
  apply dataset_row_respects;
    first [apply same_measure_refl | apply same_measure_trans | apply commits_row].
Qed.

Lemma link_row_commits ic row :
  respects (same_measure (fun w => commits (log w))) (link_row ic row).
Proof.
  apply link_row_respects;
    first [apply same_measure_refl | apply same_measure_trans | apply commits_row].
Qed.

Lemma eval_row_commits lib row :
  respects (same_measure (fun w => commits (log w))) (eval_row lib row).
Proof.
  apply eval_row_respects;
    first [apply same_measure_refl | apply same_measure_trans | apply commits_row].
Qed.

(** X15. In every loader a batch is committed exactly when its turn of the
    loop completes, and the checkpoint is written only after the commit: a
    turn that returns has made one commit; a turn left by an exception (a
    Ctrl-C during a row, or a commit that fails) has made none and leaves
    the checkpoint dict and the checkpoint file as they were. *)
Theorem checkpoint_saved_after_commit lib impl_conflict bs i w
    (ps : list PaperRow) (ds : list DatasetRow) (ls : list LinkRow)
    (es : list EvalRow) :
  commit_then_save
    (batch_step Papers (paper_row lib) (progress_line Papers) ps bs i) w
  /\ commit_then_save
       (batch_step Datasets (dataset_row lib) (progress_line Datasets) ds bs i) w
  /\ commit_then_save
       (batch_step Links (link_row impl_conflict) (progress_line Links) ls bs i) w
  /\ commit_then_save
       (batch_step Eval (eval_row lib) eval_progress_line es bs i) w.
Proof.
  repeat split; apply batch_step_commit_then_save;
    first [ apply paper_row_same_ckpt | apply dataset_row_same_ckpt
          | apply link_row_same_ckpt | apply eval_row_same_ckpt
          | apply paper_row_commits | apply dataset_row_commits
          | apply link_row_commits | apply eval_row_commits ].
Qed.

(** ** Row errors and the batch *)

Lemma steady_ret {A} (a : A) : steady (ret a).
Proof. intros w H. split; [exact H | discriminate]. Qed.

Lemma steady_modify f :
  (forall w, faults (f w) = faults w) -> steady (modify f).
Proof.
  intros Hf w H. unfold run, outcome, modify. simpl. rewrite Hf.
  split; [exact H | discriminate].
Qed.

Lemma steady_update_counters f : steady (update_counters f).
Proof. apply steady_modify. reflexivity. Qed.

Lemma steady_round_trip : steady round_trip.
Proof.
  intros w H. unfold run, outcome, round_trip.
  destruct (faults w) as [|[| |] fs] eqn:E; simpl in *;
    rewrite ?E; simpl; try discriminate; split; auto; discriminate.
Qed.

Lemma steady_bind {A B} (m : M A) (k : A -> M B) :
  steady m -> (forall a, steady (k a)) -> steady (bind m k).
Proof.
  intros Hm Hk w H. rewrite run_bind, outcome_bind.
  destruct (Hm w H) as [H1 H2].
  destruct (outcome m w) as [a|e] eqn:E; [apply Hk, H1 | split; congruence].
Qed.

Lemma steady_execute {A} (stmt : Store -> A * Store) : steady (execute stmt).
Proof.
  unfold execute. apply steady_bind; [apply steady_round_trip|].
  intros _ w H. unfold run, outcome. destruct (stmt (db w)) as [a s]. simpl.
  split; [exact H | discriminate].
Qed.

Lemma steady_query {A} (q : Store -> A) : steady (query q).
Proof. apply steady_execute. Qed.

Lemma unfailing_print m : unfailing (print m).
Proof. intros w H. split; [exact H | reflexivity]. Qed.

(** [except Exception] catches whatever a steady body raises. *)
Lemma unfailing_try (m : M unit) h :
  steady m -> (forall e, unfailing (h e)) ->
  unfailing (try_except_Exception m h).
Proof.
  intros Hm Hh w H. unfold try_except_Exception.
  rewrite run_try, outcome_try. destruct (Hm w H) as [H1 H2].
  destruct (outcome m w) as [[]|e] eqn:E; [auto|].
  destruct e; simpl; try (apply Hh, H1). congruence.
Qed.

Lemma unfailing_for_each {A} (body : A -> M unit) l :
  (forall a, unfailing (body a)) -> unfailing (for_each body l).
Proof.
  intro Hb. induction l as [|a t IH]; intros w H; simpl.
  - split; [exact H | reflexivity].
  - rewrite run_bind, outcome_bind. destruct (Hb a w H) as [H1 ->].
    apply IH, H1.
Qed.

Lemma paper_row_unfailing lib row : unfailing (paper_row lib row).
Proof.
  unfold paper_row. apply unfailing_try; [|intro; apply unfailing_print].
  destruct (pw_arxiv_id row); [|apply steady_update_counters].
  apply steady_bind; [apply steady_execute|].
  intros [r|]; apply steady_update_counters.
Qed.

Lemma dataset_row_unfailing lib row : unfailing (dataset_row lib row).
Proof.
  unfold dataset_row. apply unfailing_try; [|intro; apply unfailing_print].
  apply steady_bind; [apply steady_execute|].
  intros [r|]; apply steady_update_counters.
Qed.

Lemma link_row_unfailing ic row : unfailing (link_row ic row).
Proof.
  unfold link_row. apply unfailing_try; [|intro; apply unfailing_print].
  destruct (negb (cell_truthy (lw_repo_url row)));
    [apply steady_update_counters|].
  destruct (lw_paper_arxiv_id row); [|apply steady_update_counters].
  apply steady_bind; [apply steady_query|].
  intros [pid|]; [|apply steady_update_counters].
  apply steady_bind; [apply steady_execute|].
  intros [r|]; apply steady_update_counters.
Qed.

Lemma record_result_steady lib row bid : steady (record_result lib row bid).
Proof.
  unfold record_result. apply steady_bind.
  { destruct (ew_paper_arxiv_id row); [apply steady_query | apply steady_ret]. }
  intro pid.
  destruct (id_truthy pid && cell_truthy (ew_metric row)
            && value_notna (ew_value row)); [|apply steady_ret].
  destruct (to_float lib (ew_value row)); [|apply steady_ret].
  apply steady_bind; [apply steady_execute|].
  intros [r|]; [apply steady_update_counters | apply steady_ret].
Qed.

Lemma eval_row_unfailing lib row : unfailing (eval_row lib row).
Proof.
  unfold eval_row. apply unfailing_try; [|intro; apply unfailing_print].
  destruct (ew_dataset row); [|apply steady_update_counters].
  destruct (ew_task row); [|apply steady_update_counters].
  apply steady_bind; [apply steady_query|]. intro did.
  apply steady_bind; [apply steady_execute|]. intro bid.
  apply steady_bind; [apply steady_update_counters|]. intros _.
  apply record_result_steady.
Qed.

Lemma dataset_row_quiet lib row :
  respects (same_attempts Datasets) (dataset_row lib row).
Proof.
  apply dataset_row_respects;
    first [apply same_attempts_refl | apply same_attempts_trans
          | apply same_attempts_row].
Qed.

Lemma link_row_quiet ic row : respects (same_attempts Links) (link_row ic row).
Proof.
  apply link_row_respects;
    first [apply same_attempts_refl | apply same_attempts_trans
          | apply same_attempts_row].
Qed.

Lemma eval_row_quiet lib row : respects (same_attempts Eval) (eval_row lib row).
Proof.
  apply eval_row_respects;
    first [apply same_attempts_refl | apply same_attempts_trans
          | apply same_attempts_row].
Qed.

Lemma batch_rows_taken_up st Row (body : Row -> M unit) (rows : list Row) bs i w :
  (forall row, unfailing (body row)) ->
  (forall row, respects (same_attempts st) (body row)) ->
  no_interrupt (faults w) = true ->
  batch_taken_up st body rows bs i w.
Proof.
  intros Hu Hq Hw. unfold batch_taken_up.
  assert (Ho : outcome (batch_rows st body rows bs i) w = Ret tt).
  { unfold batch_rows.
    apply (@unfailing_for_each _
             (fun ir => emit (EvAttempt st (fst ir)) ;; body (snd ir))); [|exact Hw].
    intros [ix row] w0 H0. rewrite run_bind, outcome_bind. simpl.
    apply (Hu row). exact H0. }
  split; [exact Ho|].
  pose proof (@rows_attempts st Row body Hq (iloc i (i + bs) rows) w) as H.
  unfold wp in H. fold (batch_rows st body rows bs i) in H.
  destruct H as (m & Hm & Ha & Hr).
  rewrite (Hr Ho), iloc_length, firstn_all2 in Ha.
  - rewrite iloc_indices in Ha. exact Ha.
  - rewrite length_map, iloc_length. lia.
Qed.

(** X16. A database error on a row never ends a batch: every row body
    catches it, prints the row error and goes on.  When no Ctrl-C arrives,
    whatever else the database does, the loop over the rows of a batch
    returns and has taken up every row of the batch, in order, in each of
    the four loaders. *)
Theorem row_errors_never_stop_batch lib impl_conflict bs i w
    (ps : list PaperRow) (ds : list DatasetRow) (ls : list LinkRow)
    (es : list EvalRow) :
  no_interrupt (faults w) = true ->
  batch_taken_up Papers (paper_row lib) ps bs i w
  /\ batch_taken_up Datasets (dataset_row lib) ds bs i w
  /\ batch_taken_up Links (link_row impl_conflict) ls bs i w
  /\ batch_taken_up Eval (eval_row lib) es bs i w.
Proof.
  intro H. repeat apply conj; apply batch_rows_taken_up;
    first [ exact H
          | apply paper_row_unfailing | apply dataset_row_unfailing
          | apply link_row_unfailing | apply eval_row_unfailing
          | apply paper_row_quiet | apply dataset_row_quiet
          | apply link_row_quiet | apply eval_row_quiet ].
Qed.

Lemma row_errors_never_stop_batch_witness :
  let w := world_of scenario_rows [DbError; NoFault; DbError] in
  batch_taken_up Papers (paper_row demo_lib) scenario_rows 2 0 w
  /\ row_errors Papers
       (log (run (batch_rows Papers (paper_row demo_lib) scenario_rows 2 0) w)) = 1.
Proof.
  split.
  - apply (@row_errors_never_stop_batch demo_lib no_conflict 2 0
             (world_of scenario_rows [DbError; NoFault; DbError])
             scenario_rows [] [] []).
    reflexivity.
  - reflexivity.
Defined.

(** ** The checkpoint fields of a loader *)

Lemma own_fields_refl st c : own_fields_only st c c.
Proof. intros st' _. split; reflexivity. Qed.

Lemma own_fields_trans st a b c :
  own_fields_only st a b -> own_fields_only st b c -> own_fields_only st a c.
Proof.
  intros H1 H2 st' Hne. destruct (H1 st' Hne), (H2 st' Hne). split; congruence.
Qed.

Lemma own_fields_set_offset st n c : own_fields_only st c (set_offset st n c).
Proof.
  intros st' Hne. destruct st, st'; simpl; auto; contradiction Hne; reflexivity.
Qed.

Lemma own_fields_set_complete st c : own_fields_only st c (set_complete st c).
Proof.
  intros st' Hne. destruct st, st'; simpl; auto; contradiction Hne; reflexivity.
Qed.

Lemma checkpoint_progress_refl st w : checkpoint_progress st w w.
Proof. left. apply same_ckpt_refl. Qed.

Lemma checkpoint_progress_trans st a b c :
  checkpoint_progress st a b -> checkpoint_progress st b c ->
  checkpoint_progress st a c.
Proof.
  intros [[H1 H2]|(x & y & H1 & H2 & H3 & H4)] [[H5 H6]|(x' & y' & H5 & H6 & H7 & H8)].
  - left. split; congruence.
  - right. exists x', y'. split; [congruence|]. auto.
  - right. exists x, y. split; [exact H1|]. split; [congruence|].
    split; [congruence | exact H4].
  - right. exists x, y'. split; [exact H1|]. split; [exact H6|].
    split; [exact H7|].
    assert (x' = y) by congruence. subst x'.
    eapply own_fields_trans; eauto.
Qed.

Lemma checkpoint_progress_same st w w' :
  same_ckpt w w' -> checkpoint_progress st w w'.
Proof. intro H. left. exact H. Qed.

Section CheckpointProgress.

Variable st : stream.
Variable Row : Type.
Variable source : World -> option (list Row).
Variable body : Row -> M unit.
Variable progress : nat -> nat -> Counters -> Msg.
Variable summary : Counters -> Msg.
Variable tally : Counters -> nat.
Hypothesis body_ckpt : forall row, respects same_ckpt (body row).

Lemma print_progress m : respects (checkpoint_progress st) (print m).
Proof. intro w. left. split; reflexivity. Qed.

Lemma batch_commit_progress (rows : list Row) bs i :
  respects (checkpoint_progress st) (batch_commit st progress rows bs i).
Proof.
  intro w. unfold run, batch_commit, commit, bind, round_trip, get,
    save_checkpoint, bind, emit, print, modify, ret.
  destruct (faults w) as [|[| |] fs]; simpl;
    try (left; split; reflexivity);
    (destruct (ckpt_mem w) as [c|] eqn:E; simpl;
     [ right; exists c, (set_offset st (i + bs) c);
       split; [exact E|]; split; [reflexivity|]; split; [reflexivity|];
       apply own_fields_set_offset
     | left; split; simpl; auto ]).
Qed.

Lemma finish_stream_progress :
  respects (checkpoint_progress st) (finish_stream st summary tally).
Proof.
  intro w. unfold run, finish_stream, bind, get, save_checkpoint, bind, emit,
    print, modify, ret.
  destruct (ckpt_mem w) as [c|] eqn:E; simpl.
  - right. exists c, (set_complete st c).
    split; [exact E|]. split; [reflexivity|]. split; [reflexivity|].
    apply own_fields_set_complete.
  - left. split; simpl; auto.
Qed.

Lemma batch_loader_progress bs :
  respects (checkpoint_progress st)
    (batch_loader st source body progress summary tally bs).
Proof.
  assert (Hr := checkpoint_progress_refl st).
  assert (Ht := @checkpoint_progress_trans st).
  unfold batch_loader.
  apply respects_bind; [exact Ht | apply respects_get, Hr|]. intros [rows|].
  2:{ apply respects_bind; [exact Ht | apply print_progress|]. intros _.
      apply respects_bind; [exact Ht | apply print_progress|]. intros _.
      apply respects_ret, Hr. }
  apply respects_bind; [exact Ht | apply respects_get, Hr|]. intros cp.
  destruct (match cp with Some c => get_complete st c | None => false end).
  { apply respects_bind; [exact Ht | apply print_progress|]. intros _.
    apply respects_ret, Hr. }
  apply respects_bind; [exact Ht | apply print_progress|]. intros _.
  apply respects_bind; [exact Ht | apply print_progress|]. intros _.
  apply respects_bind; [exact Ht | |].
  { intro w. left. split; reflexivity. }
  intros _. apply respects_bind; [exact Ht | |].
  { destruct (bs =? 0); [apply respects_raise, Hr|].
    apply respects_for_each; [exact Hr | exact Ht|]. intro i.
    unfold batch_step. apply respects_bind; [exact Ht | |].
    - apply batch_rows_respects; [exact Hr | exact Ht | |].
      + intros ix w w' Hp. left. apply (same_ckpt_attempt Hp).
      + intros row w. left. apply body_ckpt.
    - intros _. apply batch_commit_progress. }
  intros _. apply finish_stream_progress.
Qed.

End CheckpointProgress.

(** X17. Each loader writes the offset and the completion flag of its own
    stream only.  After a loader has run, however it ended, either the
    checkpoint dict and the checkpoint file are as they were, or both hold
    the same checkpoint, whose fields for the other three streams are those
    of the dict the loader was given. *)
Theorem loader_writes_own_fields lib impl_conflict bs w :
  checkpoint_progress Papers w (run (load_papers lib bs) w)
  /\ checkpoint_progress Datasets w (run (load_datasets lib bs) w)
  /\ checkpoint_progress Links w (run (load_code_links impl_conflict bs) w)
  /\ checkpoint_progress Eval w (run (load_evaluation_tables lib bs) w).
Proof.
  repeat apply conj; apply batch_loader_progress;
    first [ apply paper_row_same_ckpt | apply dataset_row_same_ckpt
          | apply link_row_same_ckpt | apply eval_row_same_ckpt ].
Qed.
